(** * Lookalike model: feature construction, scaling, cosine similarity, top-3

    Shallow embedding of the notebook [Utkarsh_Pal_Lookalike.ipynb].  Each
    definition below stands for one statement of the notebook and carries the
    name of the Python variable or library call it models.

    Conventions of the embedding.
    - A column of a pandas frame is a list; a frame is a list of rows; a
      labelled frame carries its row labels next to the rows.
    - [NaN] cells are [None]; [fillna(0)] turns them into [0].
    - float64 values are modelled as real numbers ([R]): sums, products,
      quotients and square roots are exact, so no statement below speaks
      about rounding.  A float64 division by zero, whose result is [inf] or
      [nan], has no real value and is [None].
    - int64 sums wrap around at 2^63.
    - Python exceptions are values of [exn]; a statement that can raise
      returns a [result]. *)

From Stdlib Require Import Reals Lra Lia String Bool Arith ZArith List.
From Stdlib Require Import Permutation Sorted FinFun.
Import ListNotations.

Open Scope string_scope.
Open Scope list_scope.
Open Scope R_scope.

(** ** Exceptions *)

Inductive exn : Type :=
| ValueError
| KeyError (label : string)
| TypeError.

Inductive result (A : Type) : Type :=
| Ok (a : A)
| Raise (e : exn).

Arguments Ok {A} a.
Arguments Raise {A} e.

Definition bind {A B : Type} (m : result A) (k : A -> result B) : result B :=
  match m with
  | Ok a => k a
  | Raise e => Raise e
  end.

Notation "x <- m ;; k" := (bind m (fun x => k))
  (at level 61, m at next level, right associativity).

(** ** Subsequences: the order in which entries appear in a list *)

Inductive subseq {A : Type} : list A -> list A -> Prop :=
| subseq_nil : subseq [] []
| subseq_skip (x : A) (l1 l2 : list A) : subseq l1 l2 -> subseq l1 (x :: l2)
| subseq_keep (x : A) (l1 l2 : list A) : subseq l1 l2 -> subseq (x :: l1) (x :: l2).

(** [x] occurs in [l] at a position strictly before an occurrence of [y]. *)
Definition appears_before {A : Type} (x y : A) (l : list A) : Prop :=
  subseq [x; y] l.

(** ** pandas Series and labelled square frames *)

(** A float Series: labels paired with values, in positional order. *)
Definition Series : Type := list (string * R).

(** A frame of floats with row labels [df_index] and column labels
    [df_columns]. *)
Record DataFrame : Type := mkDataFrame {
  df_index : list string;
  df_columns : list string;
  df_values : list (list R)
}.

(** The rows of [df] whose label is [l], in positional order. *)
Definition rows_labelled (l : string) (df : DataFrame) : list (list R) :=
  map snd (filter (fun p => String.eqb (fst p) l)
                  (combine (df_index df) (df_values df))).

(** [df.loc[l]]: a Series when exactly one row carries the label, a frame
    when several do, [KeyError] when none does. *)
Inductive loc_result : Type :=
| LocSeries (s : Series)
| LocFrame (rows : list (list R)).

Definition loc (df : DataFrame) (l : string) : result loc_result :=
  match rows_labelled l df with
  | [] => Raise (KeyError l)
  | [r] => Ok (LocSeries (combine (df_columns df) r))
  | rs => Ok (LocFrame rs)
  end.

(** [s.drop(index=l)]: removes every entry labelled [l]; [KeyError] when the
    label is not in the Series. *)
Definition drop (l : string) (s : Series) : result Series :=
  if existsb (fun p => String.eqb (fst p) l) s
  then Ok (filter (fun p => negb (String.eqb (fst p) l)) s)
  else Raise (KeyError l).

(** Insertion of one entry into a Series sorted by descending value.  The
    entry passes only the entries that are strictly larger, so it lands
    before every entry of equal value. *)
Fixpoint insert_desc (x : string * R) (s : Series) : Series :=
  match s with
  | [] => [x]
  | y :: s' =>
      if Rlt_dec (snd x) (snd y) then y :: insert_desc x s' else x :: y :: s'
  end.

(** Descending stable sort: equal values keep their original relative
    order. *)
Fixpoint sort_values_desc (s : Series) : Series :=
  match s with
  | [] => []
  | x :: s' => insert_desc x (sort_values_desc s')
  end.

(** [s.nlargest(n)] with the default [keep='first']: the [n] largest values
    in descending order, ties resolved in favour of the first occurrence. *)
Definition nlargest (n : nat) (s : Series) : Series :=
  firstn n (sort_values_desc s).

(** Body of the recommendation loop for one [cust_id]:
<<
    sim_scores = similarity_df.loc[cust_id]
    sim_scores = sim_scores.drop(index=cust_id)
    top_3_customers = sim_scores.nlargest(3)
>>
    When [loc] yields a frame (duplicated label), [drop] succeeds and
    [DataFrame.nlargest(3)] raises [TypeError] for its missing [columns]
    argument. *)
Definition top_3_customers (similarity_df : DataFrame) (cust_id : string)
  : result Series :=
  sel <- loc similarity_df cust_id ;;
  match sel with
  | LocSeries sim_scores =>
      sim_scores' <- drop cust_id sim_scores ;;
      Ok (nlargest 3 sim_scores')
  | LocFrame _ => Raise TypeError
  end.

(** The dictionary [lookalike_dict]: insertion-ordered, assignment to an
    existing key overwrites in place. *)
Definition dict : Type := list (string * Series).

Fixpoint dict_set (d : dict) (k : string) (v : Series) : dict :=
  match d with
  | [] => [(k, v)]
  | (k', v') :: d' =>
      if String.eqb k' k then (k, v) :: d' else (k', v') :: dict_set d' k v
  end.

(** The loop [for cust_id in first_20_customers: ...]; the first exception
    ends it. *)
Fixpoint lookalike_loop (similarity_df : DataFrame) (ids : list string)
  (lookalike_dict : dict) : result dict :=
  match ids with
  | [] => Ok lookalike_dict
  | cust_id :: ids' =>
      top <- top_3_customers similarity_df cust_id ;;
      lookalike_loop similarity_df ids' (dict_set lookalike_dict cust_id top)
  end.

(** ** Input records

    Only the columns the notebook reads are kept.  A customer's [Region] may
    be missing in the file ([NaN], here [None]). *)

Record Customer : Type := mkCustomer {
  CustomerID : string;
  Region : option string
}.

Record Product : Type := mkProduct {
  ProductID : string;
  Category : string
}.

Record Transaction : Type := mkTransaction {
  TransactionID : string;
  t_CustomerID : string;
  t_ProductID : string;
  Quantity : Z;
  TotalValue : R
}.

(** ** Generic helpers *)

(** [pd.merge(left, right, how='left')] on a key: every left row is kept, in
    order; it is paired with each matching right row, or with [None] (the
    right-hand columns are [NaN]) when nothing matches. *)
Definition merge_left {A B : Type} (key_match : A -> B -> bool)
  (left : list A) (right : list B) : list (A * option B) :=
  flat_map (fun a =>
              match filter (key_match a) right with
              | [] => [(a, None)]
              | ms => map (fun b => (a, Some b)) ms
              end) left.

Fixpoint insert_string (x : string) (l : list string) : list string :=
  match l with
  | [] => [x]
  | y :: l' => if String.leb x y then x :: y :: l' else y :: insert_string x l'
  end.

Definition sort_strings (l : list string) : list string :=
  fold_right insert_string [] l.

(** The distinct values of a column, in lexical order: the group keys of
    [groupby], the column labels of [unstack], the categories of
    [OneHotEncoder]. *)
Definition sorted_unique (l : list string) : list string :=
  sort_strings (nodup string_dec l).

(** [Series.nunique()] *)
Definition nunique (l : list string) : nat :=
  length (nodup string_dec l).

Definition Rsum (l : list R) : R := fold_right Rplus 0 l.

(** The value an int64 holds after an operation whose exact result is [z]:
    arithmetic wraps around at 2^63. *)
Definition int64 (z : Z) : Z :=
  ((z + 9223372036854775808) mod 18446744073709551616 - 9223372036854775808)%Z.

(** The values of an optional column that are present. *)
Definition defined {A : Type} (l : list (option A)) : list A :=
  flat_map (fun o => match o with Some a => [a] | None => [] end) l.

Definition is_missing {A : Type} (o : option A) : bool :=
  match o with Some _ => false | None => true end.

Definition option_string_eqb (a b : option string) : bool :=
  match a, b with
  | Some x, Some y => String.eqb x y
  | None, None => true
  | _, _ => false
  end.

(** [fillna(0)] on one row. *)
Definition fillna0 (row : list (option R)) : list R :=
  map (fun o => match o with Some v => v | None => 0 end) row.

(** A frame indexed by customer key: label and row of cells. *)
Definition Table : Type := list (string * list R).

(** Left join of labelled rows on the label ([DataFrame.join(how='left')]):
    the cells of an unmatched left row are [NaN] on the right-hand side. *)
Definition join_left (left right : Table) (right_width : nat)
  : list (string * list (option R)) :=
  map (fun lr =>
         (fst (fst lr),
          map Some (snd (fst lr)) ++
          match snd lr with
          | Some r => map Some (snd r)
          | None => repeat None right_width
          end))
      (merge_left (fun l r => String.eqb (fst l) (fst r)) left right).

(** ** scikit-learn helpers *)

(** Machine epsilon of float64, [np.finfo(np.float64).eps], that is 2^-52. *)
Definition eps : R := / 4503599627370496.

(** [_handle_zeros_in_scale]: [scale[scale < 10 * eps] = 1.0]. *)
Definition handle_zeros_in_scale (scale : R) : R :=
  if Rlt_dec scale (10 * eps) then 1 else scale.

(** float64 division: with a zero divisor the result is [inf] or [nan],
    which is not a real number. *)
Definition float_div (a b : R) : option R :=
  if Req_EM_T b 0 then None else Some (a / b).

Definition column (j : nat) (X : list (list R)) : list R :=
  map (fun row => nth j row 0) X.

Definition list_min (l : list R) : R :=
  match l with
  | [] => 0
  | x :: xs => fold_right Rmin x xs
  end.

Definition list_max (l : list R) : R :=
  match l with
  | [] => 0
  | x :: xs => fold_right Rmax x xs
  end.

(** The number of columns of a matrix given as a list of rows. *)
Definition n_features {A : Type} (X : list (list A)) : nat :=
  match X with
  | [] => O
  | row :: _ => length row
  end.

(** [OneHotEncoder(sparse_output=False)] on one column.  [categories_] are
    the distinct values in lexical order; a missing value is a category of
    its own, placed last. *)
Definition OneHotEncoder_categories (col : list (option string))
  : list (option string) :=
  map Some (sorted_unique (defined col)) ++
  (if existsb is_missing col then [None] else []).

Definition OneHotEncoder_transform (categories : list (option string))
  (v : option string) : list R :=
  map (fun cat => if option_string_eqb cat v then 1 else 0) categories.

(** [fit_transform]; input validation rejects a column without samples. *)
Definition OneHotEncoder_fit_transform (col : list (option string))
  : result (list (list R)) :=
  match col with
  | [] => Raise ValueError
  | _ => Ok (map (OneHotEncoder_transform (OneHotEncoder_categories col)) col)
  end.

(** [get_feature_names_out(['Region'])]: one label per category. *)
Definition OneHotEncoder_feature_name (cat : option string) : string :=
  String.append "Region_" (match cat with Some v => v | None => "nan" end).

(** [MinMaxScaler()] with the default [feature_range=(0, 1)]:
<<
    data_range = data_max - data_min
    scale_ = (1 - 0) / _handle_zeros_in_scale(data_range)
    min_ = 0 - data_min * scale_
    X = X * scale_ + min_
>>
    A scale that is not a real number leaves no real number in its
    column. *)
Definition data_min (X : list (list R)) (j : nat) : R := list_min (column j X).
Definition data_max (X : list (list R)) (j : nat) : R := list_max (column j X).
Definition data_range (X : list (list R)) (j : nat) : R :=
  data_max X j - data_min X j.
Definition scale_ (X : list (list R)) (j : nat) : option R :=
  float_div (1 - 0) (handle_zeros_in_scale (data_range X j)).
Definition min_ (X : list (list R)) (j : nat) : option R :=
  option_map (fun s => 0 - data_min X j * s) (scale_ X j).

Definition MinMaxScaler_transform (X : list (list R)) (row : list R)
  : list (option R) :=
  map (fun j => match scale_ X j, min_ X j with
                | Some s, Some m => Some (nth j row 0 * s + m)
                | _, _ => None
                end)
      (seq 0 (n_features X)).

(** Input validation rejects a matrix without rows or without columns. *)
Definition MinMaxScaler_fit_transform (X : list (list R))
  : result (list (list (option R))) :=
  match X with
  | [] => Raise ValueError
  | _ => if Nat.eqb (n_features X) 0 then Raise ValueError
         else Ok (map (MinMaxScaler_transform X) X)
  end.

Definition dot (u v : list R) : R :=
  Rsum (map (fun p => fst p * snd p) (combine u v)).

(** [row_norms]: Euclidean norm of a row. *)
Definition row_norm (u : list R) : R := sqrt (dot u u).

(** [normalize(X)]: every row divided by its norm, a norm below [10 * eps]
    being replaced by 1 (the divisor is never zero). *)
Definition normalize_row (u : list R) : list R :=
  map (fun x => x / handle_zeros_in_scale (row_norm u)) u.

(** The cells of a row when all of them are real numbers. *)
Fixpoint finite_row (row : list (option R)) : option (list R) :=
  match row with
  | [] => Some []
  | Some x :: row' => option_map (cons x) (finite_row row')
  | None :: _ => None
  end.

Fixpoint finite_rows (X : list (list (option R))) : option (list (list R)) :=
  match X with
  | [] => Some []
  | row :: X' =>
      match finite_row row, finite_rows X' with
      | Some r, Some Y => Some (r :: Y)
      | _, _ => None
      end
  end.

(** [cosine_similarity(X)]:
<<
    X_normalized = normalize(X)
    K = X_normalized @ X_normalized.T
>>
    Input validation rejects a cell that is [nan] or [inf], a matrix
    without rows and a matrix without columns. *)
Definition cosine_similarity (X : list (list (option R)))
  : result (list (list R)) :=
  match finite_rows X with
  | None => Raise ValueError
  | Some [] => Raise ValueError
  | Some X' =>
      if Nat.eqb (n_features X') 0 then Raise ValueError
      else
        let X_normalized := map normalize_row X' in
        Ok (map (fun u => map (fun v => dot u v) X_normalized) X_normalized)
  end.

(** ** The notebook, statement by statement

    A column is identified by its position, in the order in which the
    notebook lays the columns out.  Column labels matter in two places only,
    both modelled: [join] refuses two frames that share a label, and
    [reset_index] refuses to insert [CustomerID] next to a column of that
    name. *)

(** A row of [full_data]: a transaction with the columns of the matching
    product and of the matching customer ([None] when there is no match). *)
Definition FullRow : Type := (Transaction * option Product * option Customer)%type.

Definition row_TransactionID (r : FullRow) : string := TransactionID (fst (fst r)).
Definition row_CustomerID (r : FullRow) : string := t_CustomerID (fst (fst r)).
Definition row_ProductID (r : FullRow) : string := t_ProductID (fst (fst r)).
Definition row_Quantity (r : FullRow) : Z := Quantity (fst (fst r)).
Definition row_TotalValue (r : FullRow) : R := TotalValue (fst (fst r)).
Definition row_Category (r : FullRow) : option string :=
  option_map Category (snd (fst r)).

Definition Zsum (l : list Z) : Z := fold_right Z.add 0%Z l.

(** Cells of a labelled frame re-indexed on label [c] by [pd.concat(axis=1)]:
    [NaN] when the frame has no row for [c]. *)
Definition reindex (t : Table) (width : nat) (c : string) : list (option R) :=
  match find (fun p => String.eqb (fst p) c) t with
  | Some p => map Some (snd p)
  | None => repeat None width
  end.

Definition reindex_count (t : list (string * nat)) (c : string)
  : list (option R) :=
  match find (fun p => String.eqb (fst p) c) t with
  | Some p => [Some (INR (snd p))]
  | None => [None]
  end.

(** Row labels of [pd.concat([...], axis=1)]: the labels of the first
    frame, then the labels that only later frames have, in their order. *)
Definition concat_index (first later : list string) : list string :=
  first ++ filter (fun c => negb (existsb (String.eqb c) first)) later.

(** Two frames share a column label. *)
Definition columns_overlap (left right : list string) : bool :=
  existsb (fun a => existsb (String.eqb a) right) left.

Section Notebook.

Variable customers : list Customer.
Variable products : list Product.
Variable transactions : list Transaction.

(** [transactions_products = pd.merge(transactions, products,
    on='ProductID', how='left')] *)
Definition transactions_products : list (Transaction * option Product) :=
  merge_left (fun t p => String.eqb (t_ProductID t) (ProductID p))
             transactions products.

(** [full_data = pd.merge(transactions_products, customers,
    on='CustomerID', how='left')] *)
Definition full_data : list FullRow :=
  merge_left (fun tp c => String.eqb (t_CustomerID (fst tp)) (CustomerID c))
             transactions_products customers.

(** The column labels produced by [unstack]: the categories observed in
    [full_data], in lexical order. *)
Definition category_columns : list string :=
  sorted_unique (defined (map row_Category full_data)).

(** One group of [groupby(['CustomerID', 'Category'])]; rows whose
    [Category] is [NaN] belong to no group. *)
Definition group (c cat : string) : list FullRow :=
  filter (fun r => String.eqb (row_CustomerID r) c &&
                   option_string_eqb (row_Category r) (Some cat))
         full_data.

(** One group of [groupby('CustomerID')]. *)
Definition customer_group (c : string) : list FullRow :=
  filter (fun r => String.eqb (row_CustomerID r) c) full_data.

(** [groupby(['CustomerID', 'Category'])[col].sum().unstack(fill_value=0)]:
    one row per customer that has a row with a category, one column per
    observed category, [0] where the customer has no row in the category. *)
Definition unstack_sum (agg : list FullRow -> R) : Table :=
  map (fun c =>
         (c, map (fun cat => match group c cat with
                             | [] => 0
                             | g => agg g
                             end) category_columns))
      (sorted_unique
         (map row_CustomerID
              (filter (fun r => negb (is_missing (row_Category r))) full_data))).

Definition spend_per_category : Table :=
  unstack_sum (fun g => Rsum (map row_TotalValue g)).

Definition quantity_per_category : Table :=
  unstack_sum (fun g => IZR (int64 (Zsum (map row_Quantity g)))).

(** [full_data.groupby('CustomerID')['ProductID'].nunique()] *)
Definition unique_products : list (string * nat) :=
  map (fun c => (c, nunique (map row_ProductID (customer_group c))))
      (sorted_unique (map row_CustomerID full_data)).

(** [full_data.groupby('CustomerID')['TransactionID'].nunique()] *)
Definition total_transactions : list (string * nat) :=
  map (fun c => (c, nunique (map row_TransactionID (customer_group c))))
      (sorted_unique (map row_CustomerID full_data)).

(** Width of the aggregate block: spend and quantity per category, then
    [UniqueProducts] and [TotalTransactions]. *)
Definition transaction_width : nat :=
  (length category_columns + length category_columns + 2)%nat.

(** The row labels of [transaction_features]: those of
    [spend_per_category] (which [quantity_per_category] shares), then the
    customers that only [unique_products] and [total_transactions] know. *)
Definition transaction_index : list string :=
  concat_index (map fst spend_per_category) (map fst unique_products).

(** [transaction_features = pd.concat([spend_per_category,
    quantity_per_category, unique_products, total_transactions], axis=1)]
    followed by [fillna(0)]. *)
Definition transaction_features : Table :=
  map (fun c =>
         (c, fillna0 (reindex spend_per_category (length category_columns) c ++
                      reindex quantity_per_category (length category_columns) c ++
                      reindex_count unique_products c ++
                      reindex_count total_transactions c)))
      transaction_index.

(** The column labels of [transaction_features]. *)
Definition transaction_columns : list string :=
  category_columns ++ category_columns ++
  ["UniqueProducts"; "TotalTransactions"].

(** [region_encoded = region_encoder.fit_transform(customers[['Region']])] *)
Definition region_encoded : result (list (list R)) :=
  OneHotEncoder_fit_transform (map Region customers).

(** The column labels of [region_encoded_df]. *)
Definition region_columns : list string :=
  map OneHotEncoder_feature_name (OneHotEncoder_categories (map Region customers)).

(** The two clashes of column labels that stop the build of
    [customer_data]: a label on both sides of the join, and a column
    called [CustomerID] when [reset_index] inserts the index. *)
Definition label_clash : bool :=
  columns_overlap region_columns transaction_columns ||
  existsb (String.eqb "CustomerID") (region_columns ++ transaction_columns).

(** [customer_features = region_encoded_df], indexed by
    [customers['CustomerID']];
<<
    customer_data = customer_features.join(transaction_features, how='left')
    customer_data.fillna(0, inplace=True)
    customer_data.reset_index(inplace=True)
>>
    [join] is called without suffixes and raises [ValueError] when the two
    frames share a column label; [reset_index] raises [ValueError] when a
    column is already called [CustomerID]. *)
Definition customer_data : result Table :=
  encoded <- region_encoded ;;
  let customer_features := combine (map CustomerID customers) encoded in
  if columns_overlap region_columns transaction_columns then Raise ValueError
  else if existsb (String.eqb "CustomerID")
                  (region_columns ++ transaction_columns)
       then Raise ValueError
       else Ok (map (fun p => (fst p, fillna0 (snd p)))
                    (join_left customer_features transaction_features
                               transaction_width)).

(** [customer_data_scaled[feature_cols] =
    scaler.fit_transform(customer_data[feature_cols])], indexed by
    [CustomerID] again. *)
Definition customer_data_scaled : result (list (string * list (option R))) :=
  data <- customer_data ;;
  scaled <- MinMaxScaler_fit_transform (map snd data) ;;
  Ok (combine (map fst data) scaled).

(** [similarity_df = pd.DataFrame(cosine_similarity(customer_data_scaled),
    index=customer_data_scaled.index, columns=customer_data_scaled.index)] *)
Definition similarity_df : result DataFrame :=
  scaled <- customer_data_scaled ;;
  similarity_matrix <- cosine_similarity (map snd scaled) ;;
  Ok (mkDataFrame (map fst scaled) (map fst scaled) similarity_matrix).

(** [first_20_customers = customers['CustomerID'].head(20).tolist()] *)
Definition first_20_customers : list string :=
  firstn 20 (map CustomerID customers).

(** The whole run, up to the dictionary of recommendations. *)
Definition lookalike_dict : result dict :=
  sim <- similarity_df ;;
  lookalike_loop sim first_20_customers [].

(** The recommendations computed for one customer key. *)
Definition lookalike (cust_id : string) : result Series :=
  sim <- similarity_df ;;
  top_3_customers sim cust_id.

End Notebook.

(** ** Derived descriptions used in the statements *)

(** Closed form of the row that [customer_data] holds for the customer
    record [c]: indicator block, then the customer's row of
    [transaction_features], or zeros when it has none. *)
Definition feature_row (customers : list Customer) (products : list Product)
  (transactions : list Transaction) (c : Customer) : list R :=
  OneHotEncoder_transform (OneHotEncoder_categories (map Region customers))
                          (Region c) ++
  match find (fun r => String.eqb (CustomerID c) (fst r))
             (transaction_features customers products transactions) with
  | Some r => snd r
  | None => repeat 0 (transaction_width customers products transactions)
  end.

(** The real number a scaled cell holds: [x * scale_ + min_] with
    [scale_ = 1 / h], [h] being the guarded range of the column. *)
Definition scaled_value (X : list (list R)) (row : list R) (j : nat) : R :=
  nth j row 0 * ((1 - 0) / handle_zeros_in_scale (data_range X j)) +
  (0 - data_min X j * ((1 - 0) / handle_zeros_in_scale (data_range X j))).

(** Closed forms of the scaled row and of the unit-length row of the
    customer record [c]. *)
Definition scaled_row (customers : list Customer) (products : list Product)
  (transactions : list Transaction) (c : Customer) : list R :=
  map (scaled_value (map (feature_row customers products transactions) customers)
                    (feature_row customers products transactions c))
      (seq 0 (n_features
                (map (feature_row customers products transactions) customers))).

Definition unit_row (customers : list Customer) (products : list Product)
  (transactions : list Transaction) (c : Customer) : list R :=
  normalize_row (scaled_row customers products transactions c).

(** The similarity between the customers at positions [i] and [j]. *)
Definition sim (S : DataFrame) (i j : nat) : R :=
  nth j (nth i (df_values S) []) 0.

Definition option_string_dec (a b : option string) : {a = b} + {a <> b}.
Proof. decide equality. apply string_dec. Defined.

(** Number of distinct values of the categorical attribute over all
    customers (a missing value counts as one value). *)
Definition distinct_regions (customers : list Customer) : nat :=
  length (nodup option_string_dec (map Region customers)).

(** The product categories that occur in the joined data: categories of
    products named by at least one transaction. *)
Definition purchased_categories (products : list Product)
  (transactions : list Transaction) : list string :=
  map Category
      (filter (fun p => existsb (fun t => String.eqb (t_ProductID t) (ProductID p))
                                transactions)
              products).

Definition distinct_categories (products : list Product)
  (transactions : list Transaction) : nat :=
  nunique (purchased_categories products transactions).

(** ** Properties named by the specification *)

(** The ordering of a result as the specification words it: scores
    descending, and two entries with equal scores in ascending order of
    customer key. *)
Definition spec_entry_order (a b : string * R) : Prop :=
  snd b < snd a \/ (snd a = snd b /\ String.ltb (fst a) (fst b) = true).

Definition spec_top_k_order (res : Series) : Prop :=
  StronglySorted spec_entry_order res.

(** Scores in descending order. *)
Definition score_ge (a b : string * R) : Prop := snd b <= snd a.

Definition scores_descending (res : Series) : Prop :=
  StronglySorted score_ge res.

(** The entries of a Series whose value is exactly [s]. *)
Definition score_is (s : R) (p : string * R) : bool :=
  if Req_EM_T (snd p) s then true else false.

(** The aggregate block of a feature vector whose indicator block has
    [n_regions] entries. *)
Definition aggregate_block (n_regions : nat) (row : list R) : list R :=
  skipn n_regions row.

(** The customer has no transaction at all. *)
Definition zero_transactions (transactions : list Transaction) (c : string)
  : Prop :=
  forall t, In t transactions -> t_CustomerID t <> c.

(** Every transaction of the customer names a product key that is absent
    from the product collection (a malformed join). *)
Definition only_unmatched_products (products : list Product)
  (transactions : list Transaction) (c : string) : Prop :=
  forall t, In t transactions -> t_CustomerID t = c ->
            forall p, In p products -> ProductID p <> t_ProductID t.

(** The encoder policy as the specification words it: a record without a
    value for the attribute makes the encoding step fail. *)
Definition spec_missing_attribute_fails (customers : list Customer) : Prop :=
  (exists c, In c customers /\ Region c = None) ->
  exists e, region_encoded customers = Raise e.

(** The join policy as the specification words it: no failure, and a
    customer whose transactions are malformed gets an all-zero aggregate
    block. *)
Definition spec_malformed_join_zero_aggregates (customers : list Customer)
  (products : list Product) (transactions : list Transaction) : Prop :=
  (exists data, customer_data customers products transactions = Ok data) /\
  forall data k row,
    customer_data customers products transactions = Ok data ->
    In (k, row) data ->
    only_unmatched_products products transactions k ->
    aggregate_block (distinct_regions customers) row =
    repeat 0 (2 * distinct_categories products transactions + 2).


(** The vector length as the specification words it, counting the distinct
    categories of the product collection. *)
Definition spec_feature_vector_length (customers : list Customer)
  (products : list Product) (transactions : list Transaction) : Prop :=
  forall data k row,
    customer_data customers products transactions = Ok data ->
    In (k, row) data ->
    length row =
    (distinct_regions customers + nunique (map Category products) * 2 + 2)%nat.

(** ** Worked inputs *)

(** The end-to-end example of the specification. *)
Definition example_customers : list Customer :=
  [mkCustomer "A" (Some "X"); mkCustomer "B" (Some "X"); mkCustomer "C" (Some "Y")].

Definition example_products : list Product := [mkProduct "P1" "Elec"].

Definition example_transactions : list Transaction :=
  [mkTransaction "T1" "A" "P1" 2 20; mkTransaction "T2" "B" "P1" 2 20].

(** A customer collection that is not laid out in key order; "C", "B", "D"
    and "E" have the same profile and no transaction. *)
Definition tie_customers : list Customer :=
  [mkCustomer "A" (Some "X"); mkCustomer "C" (Some "Y");
   mkCustomer "B" (Some "Y"); mkCustomer "D" (Some "Y");
   mkCustomer "E" (Some "Y")].

Definition tie_transactions : list Transaction :=
  [mkTransaction "T1" "A" "P1" 2 20].


(** The record of "B" has no region. *)
Definition customers_missing_region : list Customer :=
  [mkCustomer "A" (Some "X"); mkCustomer "B" None].

(** A product collection with a category, "Toys", that nobody buys. *)
Definition two_category_products : list Product :=
  [mkProduct "P1" "Elec"; mkProduct "P2" "Toys"].




(** The only transaction of "A" names the unknown product "P9". *)
Definition unmatched_customers : list Customer :=
  [mkCustomer "A" (Some "X"); mkCustomer "B" (Some "X")].

Definition unmatched_transactions : list Transaction :=
  [mkTransaction "T1" "A" "P9" 2 20; mkTransaction "T2" "B" "P1" 2 20].

(** ** Descriptions of the inputs used in further statements *)

(** The category of the product a transaction names, when the product
    collection has it. *)
Definition category_of (products : list Product) (t : Transaction)
  : option string :=
  option_map Category
             (find (fun p => String.eqb (t_ProductID t) (ProductID p)) products).

(** The transactions of the customer with key [c]. *)
Definition transactions_of (transactions : list Transaction) (c : string)
  : list Transaction :=
  filter (fun t => String.eqb (t_CustomerID t) c) transactions.

(** * Proofs *)

(** ** Subsequences *)

Section Subseq.

Context {A : Type}.

Lemma subseq_refl (l : list A) : subseq l l.
Proof. induction l; constructor; assumption. Qed.

Lemma subseq_nil_l (l : list A) : subseq [] l.
Proof. induction l; constructor; assumption. Qed.

Lemma subseq_trans (l1 l2 l3 : list A) :
  subseq l1 l2 -> subseq l2 l3 -> subseq l1 l3.
Proof.
  intros H12 H23. revert l1 H12.
  induction H23 as [|x l2 l3 H IH|x l2 l3 H IH]; intros l1 H12.
  - assumption.
  - constructor. apply IH. assumption.
  - inversion H12; subst.
    + constructor. apply IH. assumption.
    + apply subseq_keep. apply IH. assumption.
Qed.

Lemma subseq_In (l1 l2 : list A) (x : A) :
  subseq l1 l2 -> In x l1 -> In x l2.
Proof.
  induction 1 as [|y l1 l2 H IH|y l1 l2 H IH]; simpl; intros Hin.
  - assumption.
  - right. apply IH. assumption.
  - destruct Hin as [->|Hin]; [left; reflexivity|right; apply IH; assumption].
Qed.

Lemma subseq_NoDup (l1 l2 : list A) :
  subseq l1 l2 -> NoDup l2 -> NoDup l1.
Proof.
  induction 1 as [|y l1 l2 H IH|y l1 l2 H IH]; intros Hnd.
  - assumption.
  - inversion Hnd; subst. apply IH. assumption.
  - inversion Hnd; subst. constructor.
    + intros Hin. apply (subseq_In _ _ _ H) in Hin. contradiction.
    + apply IH. assumption.
Qed.

Lemma subseq_filter_l (f : A -> bool) (l : list A) : subseq (filter f l) l.
Proof.
  induction l as [|x l IH]; simpl.
  - constructor.
  - destruct (f x); constructor; assumption.
Qed.

Lemma subseq_filter (f : A -> bool) (l1 l2 : list A) :
  subseq l1 l2 -> subseq (filter f l1) (filter f l2).
Proof.
  induction 1 as [|y l1 l2 H IH|y l1 l2 H IH]; simpl.
  - constructor.
  - destruct (f y); [constructor|]; assumption.
  - destruct (f y); [apply subseq_keep|]; assumption.
Qed.

Lemma subseq_firstn (n : nat) (l : list A) : subseq (firstn n l) l.
Proof.
  revert n. induction l as [|x l IH]; intros [|n]; simpl.
  - constructor.
  - constructor.
  - apply subseq_nil_l.
  - apply subseq_keep. apply IH.
Qed.

Lemma subseq_app_l (l1 l2 : list A) : subseq l1 (l1 ++ l2).
Proof.
  induction l1 as [|x l1 IH]; simpl.
  - apply subseq_nil_l.
  - apply subseq_keep. assumption.
Qed.

Lemma subseq_map {B : Type} (f : A -> B) (l1 l2 : list A) :
  subseq l1 l2 -> subseq (map f l1) (map f l2).
Proof.
  induction 1; simpl; constructor; assumption.
Qed.

Lemma subseq_combine_fst {B : Type} (l : list A) (r : list B) :
  subseq (map fst (combine l r)) l.
Proof.
  revert r. induction l as [|x l IH]; intros [|y r]; simpl.
  - constructor.
  - constructor.
  - apply subseq_nil_l.
  - apply subseq_keep. apply IH.
Qed.

End Subseq.

(** ** The descending stable sort behind [nlargest] *)

Lemma insert_desc_perm (x : string * R) (s : Series) :
  Permutation (x :: s) (insert_desc x s).
Proof.
  induction s as [|y s IH]; simpl.
  - apply Permutation_refl.
  - destruct (Rlt_dec (snd x) (snd y)).
    + eapply perm_trans; [apply perm_swap|]. apply perm_skip. exact IH.
    + apply Permutation_refl.
Qed.

Lemma sort_values_desc_perm (s : Series) :
  Permutation s (sort_values_desc s).
Proof.
  induction s as [|x s IH]; simpl.
  - constructor.
  - eapply perm_trans; [apply perm_skip; exact IH|]. apply insert_desc_perm.
Qed.

Lemma insert_desc_sorted (x : string * R) (s : Series) :
  scores_descending s -> scores_descending (insert_desc x s).
Proof.
  unfold scores_descending.
  induction s as [|y s IH]; simpl; intros Hs.
  - constructor; constructor.
  - inversion Hs as [|? ? Hs' Hall]; subst.
    destruct (Rlt_dec (snd x) (snd y)) as [Hlt|Hge].
    + constructor.
      * apply IH. assumption.
      * apply Forall_forall. intros z Hz.
        apply (Permutation_in _ (Permutation_sym (insert_desc_perm x s))) in Hz.
        destruct Hz as [<-|Hz].
        -- unfold score_ge. lra.
        -- rewrite Forall_forall in Hall. apply Hall. assumption.
    + constructor; [assumption|].
      constructor.
      * unfold score_ge. lra.
      * rewrite Forall_forall in Hall |- *. intros z Hz.
        specialize (Hall z Hz). unfold score_ge in *. lra.
Qed.

Lemma sort_values_desc_sorted (s : Series) :
  scores_descending (sort_values_desc s).
Proof.
  induction s as [|x s IH]; simpl.
  - constructor.
  - apply insert_desc_sorted. assumption.
Qed.

Lemma score_is_true (s : R) (p : string * R) :
  score_is s p = true <-> snd p = s.
Proof.
  unfold score_is. destruct (Req_EM_T (snd p) s); split; congruence.
Qed.

(** Stability: among entries of equal value, insertion keeps the new entry
    in front and leaves the others in place. *)
Lemma insert_desc_stable (v : R) (x : string * R) (s : Series) :
  filter (score_is v) (insert_desc x s) = filter (score_is v) (x :: s).
Proof.
  induction s as [|y s IH].
  - reflexivity.
  - simpl insert_desc. destruct (Rlt_dec (snd x) (snd y)) as [Hlt|Hge].
    + simpl in *. rewrite IH.
      destruct (score_is v x) eqn:Ex; [|reflexivity].
      destruct (score_is v y) eqn:Ey; [|reflexivity].
      apply score_is_true in Ex, Ey. lra.
    + reflexivity.
Qed.

Lemma sort_values_desc_stable (v : R) (s : Series) :
  filter (score_is v) (sort_values_desc s) = filter (score_is v) s.
Proof.
  induction s as [|x s IH]; simpl.
  - reflexivity.
  - rewrite insert_desc_stable. simpl. rewrite IH. reflexivity.
Qed.

Lemma StronglySorted_subseq {A : Type} (rel : A -> A -> Prop) (l1 l2 : list A) :
  subseq l1 l2 -> StronglySorted rel l2 -> StronglySorted rel l1.
Proof.
  induction 1 as [|y l1 l2 H IH|y l1 l2 H IH]; intros Hs.
  - assumption.
  - inversion Hs; subst. apply IH. assumption.
  - inversion Hs as [|? ? Hs' Hall]; subst. constructor.
    + apply IH. assumption.
    + rewrite Forall_forall in Hall |- *. intros z Hz.
      apply Hall. eapply subseq_In; eassumption.
Qed.

Lemma nlargest_descending (n : nat) (s : Series) :
  scores_descending (nlargest n s).
Proof.
  unfold nlargest, scores_descending.
  eapply StronglySorted_subseq; [apply subseq_firstn|].
  apply sort_values_desc_sorted.
Qed.

(** Ties keep the order of the Series the selection was made from. *)
Lemma nlargest_ties_in_order (n : nat) (s : Series) (a b : string * R) :
  snd a = snd b ->
  appears_before a b (nlargest n s) -> appears_before a b s.
Proof.
  unfold appears_before, nlargest. intros Hab H.
  apply (subseq_filter (score_is (snd a))) in H.
  simpl in H.
  replace (score_is (snd a) a) with true in H
    by (symmetry; apply score_is_true; reflexivity).
  replace (score_is (snd a) b) with true in H
    by (symmetry; apply score_is_true; symmetry; assumption).
  eapply subseq_trans; [exact H|].
  eapply subseq_trans; [apply subseq_filter; apply subseq_firstn|].
  rewrite sort_values_desc_stable. apply subseq_filter_l.
Qed.

Lemma nlargest_keys_NoDup (n : nat) (s : Series) :
  NoDup (map fst s) -> NoDup (map fst (nlargest n s)).
Proof.
  intros Hnd. unfold nlargest.
  eapply subseq_NoDup; [apply subseq_map; apply subseq_firstn|].
  eapply Permutation_NoDup; [|exact Hnd].
  apply Permutation_map. apply sort_values_desc_perm.
Qed.

Lemma nlargest_In (n : nat) (s : Series) (p : string * R) :
  In p (nlargest n s) -> In p s.
Proof.
  intros H. unfold nlargest in H.
  apply (subseq_In _ _ _ (subseq_firstn n _)) in H.
  eapply Permutation_in; [apply Permutation_sym; apply sort_values_desc_perm|].
  assumption.
Qed.

(** ** Distinct sorted values *)

Lemma insert_string_perm (x : string) (l : list string) :
  Permutation (x :: l) (insert_string x l).
Proof.
  induction l as [|y l IH]; simpl.
  - apply Permutation_refl.
  - destruct (String.leb x y).
    + apply Permutation_refl.
    + eapply perm_trans; [apply perm_swap|]. apply perm_skip. exact IH.
Qed.

Lemma sort_strings_perm (l : list string) : Permutation l (sort_strings l).
Proof.
  induction l as [|x l IH]; simpl.
  - constructor.
  - eapply perm_trans; [apply perm_skip; exact IH|]. apply insert_string_perm.
Qed.

Lemma sorted_unique_NoDup (l : list string) : NoDup (sorted_unique l).
Proof.
  unfold sorted_unique.
  eapply Permutation_NoDup; [apply sort_strings_perm|]. apply NoDup_nodup.
Qed.

Lemma sorted_unique_In (l : list string) (x : string) :
  In x (sorted_unique l) <-> In x l.
Proof.
  unfold sorted_unique. rewrite <- (nodup_In string_dec l x). split; intros H.
  - eapply Permutation_in; [apply Permutation_sym, sort_strings_perm|exact H].
  - eapply Permutation_in; [apply sort_strings_perm|exact H].
Qed.

Lemma sorted_unique_length (l : list string) :
  length (sorted_unique l) = nunique l.
Proof.
  unfold sorted_unique, nunique. symmetry.
  apply Permutation_length. apply sort_strings_perm.
Qed.

(** Two duplicate-free lists with the same elements have the same length. *)
Lemma NoDup_same_length {A : Type} (l1 l2 : list A) :
  NoDup l1 -> NoDup l2 -> (forall x, In x l1 <-> In x l2) ->
  length l1 = length l2.
Proof.
  intros H1 H2 H. apply Permutation_length.
  apply NoDup_Permutation; assumption.
Qed.

Lemma nunique_ext (l1 l2 : list string) :
  (forall x, In x l1 <-> In x l2) -> nunique l1 = nunique l2.
Proof.
  intros H. unfold nunique.
  apply NoDup_same_length; try apply NoDup_nodup.
  intros x. rewrite !nodup_In. apply H.
Qed.

Lemma defined_In {A : Type} (l : list (option A)) (a : A) :
  In a (defined l) <-> In (Some a) l.
Proof.
  unfold defined. rewrite in_flat_map. split.
  - intros [[b|] [Hin Hb]]; simpl in Hb; [|contradiction].
    destruct Hb as [->|[]]. assumption.
  - intros Hin. exists (Some a). split; [assumption|left; reflexivity].
Qed.

(** ** Left joins *)

Lemma merge_left_In_fst {A B : Type} (f : A -> B -> bool)
  (l : list A) (r : list B) (p : A * option B) :
  In p (merge_left f l r) -> In (fst p) l.
Proof.
  unfold merge_left. rewrite in_flat_map. intros [a [Ha Hp]].
  destruct (filter (f a) r) as [|b ms] eqn:E.
  - destruct Hp as [<-|[]]. assumption.
  - apply in_map_iff in Hp. destruct Hp as [b' [<- _]]. assumption.
Qed.

(** Every left row survives a left join. *)
Lemma merge_left_keeps {A B : Type} (f : A -> B -> bool)
  (l : list A) (r : list B) (a : A) :
  In a l -> exists o, In (a, o) (merge_left f l r).
Proof.
  intros Ha. unfold merge_left.
  destruct (filter (f a) r) as [|b ms] eqn:E.
  - exists None. apply in_flat_map. exists a. split; [assumption|].
    rewrite E. left. reflexivity.
  - exists (Some b). apply in_flat_map. exists a. split; [assumption|].
    rewrite E. left. reflexivity.
Qed.

Lemma merge_left_In_Some {A B : Type} (f : A -> B -> bool)
  (l : list A) (r : list B) (a : A) (b : B) :
  In (a, Some b) (merge_left f l r) <-> In a l /\ In b r /\ f a b = true.
Proof.
  unfold merge_left. rewrite in_flat_map. split.
  - intros [a' [Ha Hp]].
    destruct (filter (f a') r) as [|b0 ms] eqn:E.
    + destruct Hp as [Hp|[]]. discriminate.
    + apply in_map_iff in Hp. destruct Hp as [b' [Hb' Hin]].
      inversion Hb'; subst. rewrite <- E in Hin.
      apply filter_In in Hin. tauto.
  - intros [Ha [Hb Hf]]. exists a. split; [assumption|].
    assert (Hin : In b (filter (f a) r)) by (apply filter_In; tauto).
    destruct (filter (f a) r) as [|b0 ms]; [contradiction|].
    apply in_map_iff. exists b. tauto.
Qed.

(** With duplicate-free labels, at most one row carries a given label. *)
Lemma filter_label_NoDup {V : Type} (k : string) (t : list (string * V)) :
  NoDup (map fst t) ->
  filter (fun r => String.eqb k (fst r)) t =
  match find (fun r => String.eqb k (fst r)) t with
  | Some r => [r]
  | None => []
  end.
Proof.
  induction t as [|[k' v] t IH]; simpl; intros Hnd.
  - reflexivity.
  - inversion Hnd as [|? ? Hnotin Hnd']; subst.
    destruct (String.eqb k k') eqn:E.
    + apply String.eqb_eq in E. subst k'. f_equal.
      destruct (filter (fun r => String.eqb k (fst r)) t) as [|[k2 v2] rest] eqn:F;
        [reflexivity|].
      exfalso. apply Hnotin.
      assert (Hin : In (k2, v2) (filter (fun r => String.eqb k (fst r)) t))
        by (rewrite F; left; reflexivity).
      apply filter_In in Hin. destruct Hin as [Hin Hk]. simpl in Hk.
      apply String.eqb_eq in Hk. subst k2.
      apply in_map_iff. exists (k, v2). split; [reflexivity|assumption].
    + apply IH. assumption.
Qed.

Lemma fillna0_Some (l : list R) : fillna0 (map Some l) = l.
Proof.
  unfold fillna0. rewrite map_map. simpl. apply map_id.
Qed.

Lemma fillna0_None (n : nat) : fillna0 (repeat None n) = repeat 0 n.
Proof.
  induction n as [|n IH]; simpl; [reflexivity|]. f_equal. exact IH.
Qed.

Lemma fillna0_app (l1 l2 : list (option R)) :
  fillna0 (l1 ++ l2) = fillna0 l1 ++ fillna0 l2.
Proof. unfold fillna0. apply map_app. Qed.

Lemma merge_left_cons {A B : Type} (f : A -> B -> bool)
  (a : A) (l : list A) (r : list B) :
  merge_left f (a :: l) r =
  match filter (f a) r with
  | [] => [(a, None)]
  | ms => map (fun b => (a, Some b)) ms
  end ++ merge_left f l r.
Proof. reflexivity. Qed.

(** A left join against a frame with duplicate-free labels keeps the left
    rows one for one. *)
Lemma join_left_unique (left right : Table) (w : nat) :
  NoDup (map fst right) ->
  map (fun p => (fst p, fillna0 (snd p))) (join_left left right w) =
  map (fun l => (fst l,
                 snd l ++ match find (fun r => String.eqb (fst l) (fst r)) right with
                          | Some r => snd r
                          | None => repeat 0 w
                          end)) left.
Proof.
  intros Hnd. unfold join_left.
  induction left as [|l left IH].
  - reflexivity.
  - rewrite merge_left_cons, !map_app, IH. clear IH.
    rewrite (filter_label_NoDup (fst l) right Hnd).
    rewrite (map_cons _ l left). cbv beta.
    destruct (find (fun r => String.eqb (fst l) (fst r)) right) as [r|]; simpl;
      rewrite fillna0_app, fillna0_Some.
    + rewrite fillna0_Some. reflexivity.
    + rewrite fillna0_None. reflexivity.
Qed.

(** ** The joined data and the category universe *)

Lemma full_data_transaction (cs : list Customer) (ps : list Product)
  (ts : list Transaction) (r : FullRow) :
  In r (full_data cs ps ts) -> In (fst (fst r)) ts.
Proof.
  intros H. unfold full_data in H.
  apply merge_left_In_fst in H.
  unfold transactions_products in H.
  apply merge_left_In_fst in H. exact H.
Qed.

(** A transaction always reaches the joined data, matched or not. *)
Lemma full_data_keeps (cs : list Customer) (ps : list Product)
  (ts : list Transaction) (t : Transaction) :
  In t ts -> exists r, In r (full_data cs ps ts) /\ fst (fst r) = t.
Proof.
  intros Ht.
  destruct (merge_left_keeps
              (fun t p => String.eqb (t_ProductID t) (ProductID p)) ts ps t Ht)
    as [o Ho].
  destruct (merge_left_keeps
              (fun tp c => String.eqb (t_CustomerID (fst tp)) (CustomerID c))
              (transactions_products ps ts) cs (t, o) Ho) as [o' Ho'].
  exists (t, o, o'). split; [exact Ho'|reflexivity].
Qed.

Lemma full_data_category (cs : list Customer) (ps : list Product)
  (ts : list Transaction) (cat : string) :
  In (Some cat) (map row_Category (full_data cs ps ts)) <->
  In cat (purchased_categories ps ts).
Proof.
  unfold purchased_categories. rewrite !in_map_iff. split.
  - intros [[[t o] oc] [Hcat Hin]].
    unfold row_Category in Hcat. simpl in Hcat.
    destruct o as [p|]; [|discriminate]. simpl in Hcat.
    exists p. split; [congruence|].
    unfold full_data in Hin. apply merge_left_In_fst in Hin. simpl in Hin.
    unfold transactions_products in Hin.
    apply merge_left_In_Some in Hin. destruct Hin as [Ht [Hp Hm]].
    apply filter_In. split; [assumption|].
    apply existsb_exists. exists t. tauto.
  - intros [p [Hcat Hin]]. apply filter_In in Hin. destruct Hin as [Hp Hex].
    apply existsb_exists in Hex. destruct Hex as [t [Ht Hm]].
    assert (Htp : In (t, Some p) (transactions_products ps ts)).
    { unfold transactions_products. apply merge_left_In_Some. tauto. }
    destruct (merge_left_keeps
                (fun tp c => String.eqb (t_CustomerID (fst tp)) (CustomerID c))
                _ cs _ Htp) as [oc Hoc].
    exists (t, Some p, oc). split; [|exact Hoc].
    unfold row_Category. simpl. congruence.
Qed.

Lemma category_columns_length (cs : list Customer) (ps : list Product)
  (ts : list Transaction) :
  length (category_columns cs ps ts) = distinct_categories ps ts.
Proof.
  unfold category_columns, distinct_categories.
  rewrite sorted_unique_length. apply nunique_ext.
  intros x. rewrite defined_In. apply full_data_category.
Qed.

Lemma transaction_width_eq (cs : list Customer) (ps : list Product)
  (ts : list Transaction) :
  transaction_width cs ps ts = (2 * distinct_categories ps ts + 2)%nat.
Proof.
  unfold transaction_width. rewrite category_columns_length. lia.
Qed.

(** ** The categorical encoder *)

Lemma OneHotEncoder_categories_NoDup (col : list (option string)) :
  NoDup (OneHotEncoder_categories col).
Proof.
  unfold OneHotEncoder_categories.
  assert (Hs : NoDup (map Some (sorted_unique (defined col)))).
  { apply Injective_map_NoDup; [|apply sorted_unique_NoDup].
    intros a b Hab. congruence. }
  destruct (existsb is_missing col).
  - apply NoDup_app; [exact Hs | repeat constructor; intros [] |].
    intros x Hx [<-|[]]. apply in_map_iff in Hx.
    destruct Hx as [y [Hy _]]. discriminate.
  - rewrite app_nil_r. exact Hs.
Qed.

Lemma OneHotEncoder_categories_In (col : list (option string))
  (v : option string) :
  In v (OneHotEncoder_categories col) <-> In v col.
Proof.
  unfold OneHotEncoder_categories. rewrite in_app_iff, in_map_iff.
  destruct v as [x|].
  - split.
    + intros [[y [Hy Hin]]|Hin].
      * inversion Hy; subst. apply sorted_unique_In, defined_In in Hin. exact Hin.
      * destruct (existsb is_missing col); simpl in Hin;
          [destruct Hin as [Hin|[]]; discriminate|contradiction].
    + intros Hin. left. exists x. split; [reflexivity|].
      apply sorted_unique_In, defined_In. exact Hin.
  - split.
    + intros [[y [Hy _]]|Hin]; [discriminate|].
      destruct (existsb is_missing col) eqn:E; [|contradiction].
      apply existsb_exists in E. destruct E as [[z|] [Hz Hm]];
        [discriminate|exact Hz].
    + intros Hin. right.
      assert (E : existsb is_missing col = true)
        by (apply existsb_exists; exists None; split; [exact Hin|reflexivity]).
      rewrite E. left. reflexivity.
Qed.

Lemma OneHotEncoder_categories_length (cs : list Customer) :
  length (OneHotEncoder_categories (map Region cs)) = distinct_regions cs.
Proof.
  unfold distinct_regions. apply NoDup_same_length.
  - apply OneHotEncoder_categories_NoDup.
  - apply NoDup_nodup.
  - intros v. rewrite nodup_In. apply OneHotEncoder_categories_In.
Qed.

Lemma OneHotEncoder_transform_length (cats : list (option string))
  (v : option string) :
  length (OneHotEncoder_transform cats v) = length cats.
Proof. unfold OneHotEncoder_transform. apply length_map. Qed.

Lemma option_string_eqb_eq (a b : option string) :
  option_string_eqb a b = true <-> a = b.
Proof.
  destruct a as [x|], b as [y|]; simpl; try (split; congruence).
  rewrite String.eqb_eq. split; congruence.
Qed.


(** ** The feature table *)

Lemma concat_index_In (first later : list string) (k : string) :
  In k (concat_index first later) <-> In k first \/ In k later.
Proof.
  unfold concat_index. rewrite in_app_iff, filter_In. split.
  - intros [H|[H _]]; [left|right]; exact H.
  - intros [H|H]; [left; exact H|].
    destruct (existsb (String.eqb k) first) eqn:E.
    + left. apply existsb_exists in E. destruct E as [x [Hx E]].
      apply String.eqb_eq in E. subst. exact Hx.
    + right. split; [exact H|reflexivity].
Qed.

Lemma concat_index_NoDup (first later : list string) :
  NoDup first -> NoDup later -> NoDup (concat_index first later).
Proof.
  intros H1 H2. unfold concat_index. apply NoDup_app.
  - exact H1.
  - apply NoDup_filter. exact H2.
  - intros k Hk Hf. apply filter_In in Hf. destruct Hf as [_ Hf].
    apply negb_true_iff in Hf.
    assert (E : existsb (String.eqb k) first = true).
    { apply existsb_exists. exists k. split; [exact Hk|apply String.eqb_refl]. }
    congruence.
Qed.

Lemma unstack_sum_index (cs : list Customer) (ps : list Product)
  (ts : list Transaction) (agg : list FullRow -> R) :
  map fst (unstack_sum cs ps ts agg) =
  sorted_unique
    (map row_CustomerID
         (filter (fun r => negb (is_missing (row_Category r)))
                 (full_data cs ps ts))).
Proof.
  unfold unstack_sum. rewrite map_map. simpl. apply map_id.
Qed.

Lemma unique_products_index (cs : list Customer) (ps : list Product)
  (ts : list Transaction) :
  map fst (unique_products cs ps ts) =
  sorted_unique (map row_CustomerID (full_data cs ps ts)).
Proof.
  unfold unique_products. rewrite map_map. simpl. apply map_id.
Qed.

(** The row labels of [transaction_features] are the customer keys of the
    joined data, each once. *)
Lemma transaction_index_In (cs : list Customer) (ps : list Product)
  (ts : list Transaction) (k : string) :
  In k (transaction_index cs ps ts) <->
  In k (sorted_unique (map row_CustomerID (full_data cs ps ts))).
Proof.
  unfold transaction_index, spend_per_category.
  rewrite concat_index_In, unstack_sum_index, unique_products_index.
  split; [|intros H; right; exact H].
  intros [H|H]; [|exact H].
  apply sorted_unique_In. apply (proj1 (sorted_unique_In _ _)) in H.
  apply in_map_iff in H. destruct H as [r [Hk Hr]].
  apply filter_In in Hr. apply in_map_iff. exists r. tauto.
Qed.

Lemma transaction_index_NoDup (cs : list Customer) (ps : list Product)
  (ts : list Transaction) : NoDup (transaction_index cs ps ts).
Proof.
  unfold transaction_index, spend_per_category.
  apply concat_index_NoDup.
  - rewrite unstack_sum_index. apply sorted_unique_NoDup.
  - rewrite unique_products_index. apply sorted_unique_NoDup.
Qed.

Lemma transaction_features_labels (cs : list Customer) (ps : list Product)
  (ts : list Transaction) :
  map fst (transaction_features cs ps ts) = transaction_index cs ps ts.
Proof.
  unfold transaction_features. rewrite map_map. simpl. apply map_id.
Qed.

Lemma combine_map_map {A B C : Type} (f : A -> B) (g : A -> C) (l : list A) :
  combine (map f l) (map g l) = map (fun a => (f a, g a)) l.
Proof.
  induction l as [|a l IH]; simpl; [reflexivity|]. f_equal. exact IH.
Qed.

(** The feature table, row by row: one row per customer record, in the
    order of the customer collection.  It is built when there is at least
    one customer and no column labels clash. *)
Lemma customer_data_rows (cs : list Customer) (ps : list Product)
  (ts : list Transaction) :
  cs <> [] -> label_clash cs ps ts = false ->
  customer_data cs ps ts =
  Ok (map (fun c => (CustomerID c, feature_row cs ps ts c)) cs).
Proof.
  intros Hne Hc. unfold label_clash in Hc. apply orb_false_iff in Hc.
  destruct Hc as [Hc1 Hc2].
  unfold customer_data, region_encoded, OneHotEncoder_fit_transform.
  destruct (map Region cs) as [|v col] eqn:E.
  - destruct cs; [contradiction|discriminate].
  - rewrite <- E. clear E v col. unfold bind. rewrite Hc1, Hc2. f_equal.
    rewrite (map_map Region), combine_map_map.
    rewrite join_left_unique.
    + rewrite map_map. reflexivity.
    + rewrite transaction_features_labels. apply transaction_index_NoDup.
Qed.

Lemma customer_data_empty (ps : list Product) (ts : list Transaction) :
  customer_data [] ps ts = Raise ValueError.
Proof. reflexivity. Qed.

Lemma customer_data_clash (cs : list Customer) (ps : list Product)
  (ts : list Transaction) :
  label_clash cs ps ts = true -> customer_data cs ps ts = Raise ValueError.
Proof.
  intros Hc. unfold customer_data, region_encoded, OneHotEncoder_fit_transform.
  destruct (map Region cs) as [|v col]; [reflexivity|].
  unfold bind. unfold label_clash in Hc.
  destruct (columns_overlap _ _); [reflexivity|].
  rewrite orb_false_l in Hc. rewrite Hc. reflexivity.
Qed.

(** The build raises only [ValueError], and only for an empty customer
    collection or clashing column labels. *)
Lemma customer_data_raise (cs : list Customer) (ps : list Product)
  (ts : list Transaction) (e : exn) :
  customer_data cs ps ts = Raise e ->
  e = ValueError /\ (cs = [] \/ label_clash cs ps ts = true).
Proof.
  intros H. destruct cs as [|c cs].
  - rewrite customer_data_empty in H. split; [congruence|left; reflexivity].
  - destruct (label_clash (c :: cs) ps ts) eqn:E.
    + rewrite (customer_data_clash _ _ _ E) in H.
      split; [congruence|right; reflexivity].
    + rewrite customer_data_rows in H by (discriminate || exact E). discriminate.
Qed.

Lemma customer_data_inv (cs : list Customer) (ps : list Product)
  (ts : list Transaction) (data : Table) :
  customer_data cs ps ts = Ok data ->
  cs <> [] /\ label_clash cs ps ts = false /\
  data = map (fun c => (CustomerID c, feature_row cs ps ts c)) cs.
Proof.
  intros H.
  assert (Hne : cs <> [])
    by (intros ->; rewrite customer_data_empty in H; discriminate).
  assert (Hc : label_clash cs ps ts = false).
  { destruct (label_clash cs ps ts) eqn:E; [|reflexivity].
    rewrite (customer_data_clash _ _ _ E) in H. discriminate. }
  rewrite (customer_data_rows _ _ _ Hne Hc) in H. injection H as <-.
  tauto.
Qed.

Lemma find_none_label {V : Type} (k : string) (t : list (string * V)) :
  ~ In k (map fst t) -> find (fun r => String.eqb k (fst r)) t = None.
Proof.
  induction t as [|[k' v] t IH]; simpl; intros Hn.
  - reflexivity.
  - destruct (String.eqb k k') eqn:E.
    + apply String.eqb_eq in E. subst. exfalso. apply Hn. left. reflexivity.
    + apply IH. intros H. apply Hn. right. exact H.
Qed.

Lemma find_some_label {V : Type} (k : string) (t : list (string * V)) :
  In k (map fst t) ->
  exists v, find (fun r => String.eqb k (fst r)) t = Some (k, v) /\ In (k, v) t.
Proof.
  induction t as [|[k' v] t IH]; simpl; intros Hin.
  - contradiction.
  - destruct (String.eqb k k') eqn:E.
    + apply String.eqb_eq in E. subst. exists v. split; [reflexivity|left; reflexivity].
    + destruct Hin as [Hk|Hin].
      * subst. rewrite String.eqb_refl in E. discriminate.
      * destruct (IH Hin) as [v' [Hf Hin']]. exists v'. split; [exact Hf|right; exact Hin'].
Qed.

Lemma skipn_length_app {A : Type} (l1 l2 : list A) :
  skipn (length l1) (l1 ++ l2) = l2.
Proof. induction l1 as [|x l1 IH]; simpl; [reflexivity|exact IH]. Qed.

(** A customer without transactions has no row in [transaction_features]. *)
Lemma zero_transactions_no_row (cs : list Customer) (ps : list Product)
  (ts : list Transaction) (k : string) :
  zero_transactions ts k ->
  ~ In k (map fst (transaction_features cs ps ts)).
Proof.
  intros Hz Hin. rewrite transaction_features_labels in Hin.
  apply (proj1 (transaction_index_In _ _ _ _)) in Hin.
  apply (proj1 (sorted_unique_In _ _)) in Hin. apply in_map_iff in Hin.
  destruct Hin as [r [Hk Hr]]. apply full_data_transaction in Hr.
  apply (Hz _ Hr). exact Hk.
Qed.

Lemma customer_data_In (cs : list Customer) (ps : list Product)
  (ts : list Transaction) (data : Table) (k : string) (row : list R) :
  customer_data cs ps ts = Ok data -> In (k, row) data ->
  exists c, In c cs /\ k = CustomerID c /\ row = feature_row cs ps ts c.
Proof.
  intros Hd Hin. apply customer_data_inv in Hd. destruct Hd as [_ [_ ->]].
  apply in_map_iff in Hin. destruct Hin as [c [Hc Hin]].
  exists c. split; [exact Hin|]. split; congruence.
Qed.

Lemma aggregate_block_feature_row (cs : list Customer) (ps : list Product)
  (ts : list Transaction) (c : Customer) :
  aggregate_block (distinct_regions cs) (feature_row cs ps ts c) =
  match find (fun r => String.eqb (CustomerID c) (fst r))
             (transaction_features cs ps ts) with
  | Some r => snd r
  | None => repeat 0 (transaction_width cs ps ts)
  end.
Proof.
  unfold aggregate_block, feature_row.
  rewrite <- OneHotEncoder_categories_length.
  rewrite <- (OneHotEncoder_transform_length _ (Region c)).
  apply skipn_length_app.
Qed.

(** C2. Whenever the feature table is built, its keys are exactly the keys
    of the customer collection, in the same order (no customer dropped, none
    invented), and every customer without any transaction has an all-zero
    aggregate block. *)
Theorem feature_table_keys_and_zero_aggregates
  (cs : list Customer) (ps : list Product) (ts : list Transaction)
  (data : Table) :
  customer_data cs ps ts = Ok data ->
  map fst data = map CustomerID cs /\
  forall k row,
    In (k, row) data -> zero_transactions ts k ->
    aggregate_block (distinct_regions cs) row =
    repeat 0 (2 * distinct_categories ps ts + 2).
Proof.
  intros Hd. split.
  - apply customer_data_inv in Hd. destruct Hd as [_ [_ ->]].
    rewrite map_map. reflexivity.
  - intros k row Hin Hz.
    destruct (customer_data_In cs ps ts _ k row Hd Hin) as [c [Hc [-> ->]]].
    rewrite aggregate_block_feature_row.
    rewrite find_none_label by (apply zero_transactions_no_row; exact Hz).
    rewrite transaction_width_eq. reflexivity.
Qed.

Lemma feature_table_keys_and_zero_aggregates_witness :
  exists data row,
    customer_data example_customers example_products example_transactions = Ok data /\
    map fst data = ["A"; "B"; "C"] /\
    In ("C", row) data /\
    aggregate_block (distinct_regions example_customers) row =
    repeat 0 (2 * distinct_categories example_products example_transactions + 2).
Proof.
  assert (Hd : customer_data example_customers example_products
                             example_transactions =
               Ok (map (fun c => (CustomerID c,
                                  feature_row example_customers example_products
                                              example_transactions c))
                       example_customers))
    by (apply customer_data_rows; [discriminate|reflexivity]).
  destruct (feature_table_keys_and_zero_aggregates
              example_customers example_products example_transactions _ Hd)
    as [Hk Hz].
  eexists.
  exists (feature_row example_customers example_products example_transactions
                      (mkCustomer "C" (Some "Y"))).
  assert (Hin : In ("C", feature_row example_customers example_products
                                     example_transactions
                                     (mkCustomer "C" (Some "Y")))
                   (map (fun c => (CustomerID c,
                                   feature_row example_customers example_products
                                               example_transactions c))
                        example_customers)).
  { right. right. left. reflexivity. }
  split; [exact Hd|]. split; [exact Hk|]. split; [exact Hin|].
  apply (Hz "C"); [exact Hin|].
  intros t [<-|[<-|[]]]; simpl; discriminate.
Defined.
(** ** Width of the feature vectors *)

Lemma reindex_length (t : Table) (w : nat) (c : string) :
  (forall p, In p t -> length (snd p) = w) -> length (reindex t w c) = w.
Proof.
  intros H. unfold reindex.
  destruct (find (fun p => String.eqb (fst p) c) t) as [p|] eqn:E.
  - rewrite length_map. apply H. apply find_some in E. tauto.
  - apply repeat_length.
Qed.

Lemma reindex_count_length (t : list (string * nat)) (c : string) :
  length (reindex_count t c) = 1%nat.
Proof.
  unfold reindex_count. destruct (find _ t); reflexivity.
Qed.

Lemma unstack_sum_row_length (cs : list Customer) (ps : list Product)
  (ts : list Transaction) (agg : list FullRow -> R) (p : string * list R) :
  In p (unstack_sum cs ps ts agg) ->
  length (snd p) = length (category_columns cs ps ts).
Proof.
  unfold unstack_sum. intros H. apply in_map_iff in H.
  destruct H as [c [<- _]]. simpl. apply length_map.
Qed.

Lemma transaction_features_row_length (cs : list Customer) (ps : list Product)
  (ts : list Transaction) (p : string * list R) :
  In p (transaction_features cs ps ts) ->
  length (snd p) = transaction_width cs ps ts.
Proof.
  unfold transaction_features. intros H. apply in_map_iff in H.
  destruct H as [c [<- _]]. simpl. unfold fillna0.
  rewrite length_map, !length_app, !reindex_count_length.
  unfold spend_per_category, quantity_per_category.
  rewrite !reindex_length by (intros q; apply unstack_sum_row_length).
  unfold transaction_width. lia.
Qed.

Lemma feature_row_length (cs : list Customer) (ps : list Product)
  (ts : list Transaction) (c : Customer) :
  length (feature_row cs ps ts c) =
  (distinct_regions cs + distinct_categories ps ts * 2 + 2)%nat.
Proof.
  unfold feature_row.
  rewrite length_app, OneHotEncoder_transform_length,
    OneHotEncoder_categories_length.
  assert (Hw : length
                 match find (fun r => String.eqb (CustomerID c) (fst r))
                            (transaction_features cs ps ts) with
                 | Some r => snd r
                 | None => repeat 0 (transaction_width cs ps ts)
                 end = transaction_width cs ps ts).
  { destruct (find _ (transaction_features cs ps ts)) as [r|] eqn:E.
    - apply transaction_features_row_length. apply find_some in E. tauto.
    - apply repeat_length. }
  rewrite Hw, transaction_width_eq. lia.
Qed.

(** C9, as stated, fails: the product collection has two categories, but
    only "Elec" is ever bought, and the vectors have 2 + 1 * 2 + 2 = 6 cells,
    not 2 + 2 * 2 + 2 = 8. *)
Lemma unpurchased_category_not_counted :
  ~ spec_feature_vector_length example_customers two_category_products
                               example_transactions.
Proof.
  intros H.
  specialize (H _ "A"
                (feature_row example_customers two_category_products
                             example_transactions (mkCustomer "A" (Some "X")))
                (customer_data_rows example_customers two_category_products
                                    example_transactions
                                    ltac:(discriminate) eq_refl)
                (or_introl eq_refl)).
  rewrite feature_row_length in H. vm_compute in H. discriminate.
Qed.

(** C9, amended. Whenever the feature table is built, every feature vector
    has length (number of distinct values of the categorical attribute over
    all customers) + (number of distinct categories of the products named
    by at least one transaction) * 2 + 2; in particular all vectors of a run
    have the same length. *)
Theorem feature_vector_length
  (cs : list Customer) (ps : list Product) (ts : list Transaction)
  (data : Table) (k : string) (row : list R) :
  customer_data cs ps ts = Ok data ->
  In (k, row) data ->
  length row = (distinct_regions cs + distinct_categories ps ts * 2 + 2)%nat.
Proof.
  intros Hd Hin.
  destruct (customer_data_In cs ps ts _ k row Hd Hin) as [c [_ [_ ->]]].
  apply feature_row_length.
Qed.

Lemma feature_vector_length_witness :
  length (feature_row example_customers two_category_products
                      example_transactions (mkCustomer "A" (Some "X"))) =
  (distinct_regions example_customers +
   distinct_categories two_category_products example_transactions * 2 + 2)%nat.
Proof.
  apply (feature_vector_length
           example_customers two_category_products example_transactions
           (map (fun c => (CustomerID c,
                           feature_row example_customers two_category_products
                                       example_transactions c))
                example_customers) "A").
  - apply customer_data_rows; [discriminate|reflexivity].
  - left. reflexivity.
Defined.

(** ** Records without a value for the categorical attribute *)

(** C3, as stated, fails: the record of "B" has no region and the encoding
    step returns the indicator rows all the same. *)
Lemma missing_attribute_is_not_an_error :
  ~ spec_missing_attribute_fails customers_missing_region.
Proof.
  intros H. destruct H as [e He].
  - exists (mkCustomer "B" None).
    split; [right; left; reflexivity|reflexivity].
  - discriminate He.
Qed.

Lemma OneHotEncoder_transform_missing (xs : list string) :
  OneHotEncoder_transform (map Some xs ++ [None]) None =
  repeat 0 (length xs) ++ [1].
Proof.
  unfold OneHotEncoder_transform. rewrite map_app. simpl. f_equal.
  induction xs as [|x xs IH]; simpl; [reflexivity|]. f_equal. exact IH.
Qed.

Lemma region_encoded_rows (cs : list Customer) :
  cs <> [] ->
  region_encoded cs =
  Ok (map (fun c => OneHotEncoder_transform
                      (OneHotEncoder_categories (map Region cs)) (Region c)) cs).
Proof.
  intros Hne. unfold region_encoded, OneHotEncoder_fit_transform.
  destruct (map Region cs) as [|v col] eqn:E.
  - destruct cs; [contradiction|discriminate].
  - rewrite <- E. rewrite map_map. reflexivity.
Qed.

(** C3, amended. A record without region does not make the encoding step
    fail: the missing value is one more category, the last one in the
    category order, and the record is encoded with a single 1 in that last
    position. *)
Theorem missing_region_is_a_category
  (cs : list Customer) (i : nat) (c : Customer) :
  nth_error cs i = Some c -> Region c = None ->
  exists rows,
    region_encoded cs = Ok rows /\
    nth_error rows i = Some (repeat 0 (distinct_regions cs - 1) ++ [1]).
Proof.
  intros Hi Hc.
  assert (Hin : In None (map Region cs)).
  { apply in_map_iff. exists c. split; [exact Hc|].
    eapply nth_error_In. exact Hi. }
  assert (Hne : cs <> []) by (intros ->; destruct i; discriminate).
  rewrite (region_encoded_rows cs Hne). eexists. split; [reflexivity|].
  rewrite nth_error_map, Hi. simpl. f_equal. rewrite Hc.
  pose proof (OneHotEncoder_categories_length cs) as Hlen.
  unfold OneHotEncoder_categories in *.
  assert (E : existsb is_missing (map Region cs) = true)
    by (apply existsb_exists; exists None; split; [exact Hin|reflexivity]).
  rewrite E in *. rewrite OneHotEncoder_transform_missing.
  rewrite length_app, length_map in Hlen. simpl in Hlen.
  replace (distinct_regions cs - 1)%nat
    with (length (sorted_unique (defined (map Region cs)))) by lia.
  reflexivity.
Qed.

Lemma missing_region_is_a_category_witness :
  exists rows,
    region_encoded customers_missing_region = Ok rows /\
    nth_error rows 1 = Some [0; 1].
Proof.
  apply (missing_region_is_a_category customers_missing_region 1
                                      (mkCustomer "B" None)); reflexivity.
Defined.

(** ** Transactions that match no product or no customer *)

(** C6, as stated, fails: customer "A" has a single transaction, naming an
    unknown product; its aggregate block ends with the two counts, which
    are not zero. *)
Lemma unmatched_product_still_counted :
  ~ spec_malformed_join_zero_aggregates unmatched_customers example_products
                                        unmatched_transactions.
Proof.
  intros [_ H].
  specialize (H _ "A"
                (feature_row unmatched_customers example_products
                             unmatched_transactions (mkCustomer "A" (Some "X")))
                (customer_data_rows unmatched_customers example_products
                                    unmatched_transactions
                                    ltac:(discriminate) eq_refl)).
  specialize (H (or_introl eq_refl)).
  assert (Hu : only_unmatched_products example_products
                                       unmatched_transactions "A").
  { intros t [<-|[<-|[]]] Hk p [<-|[]]; simpl in *; discriminate. }
  specialize (H Hu). simpl in H. injection H as H1 H2. lra.
Qed.

Lemma reindex_absent (t : Table) (w : nat) (c : string) :
  ~ In c (map fst t) -> reindex t w c = repeat None w.
Proof.
  intros Hn. unfold reindex.
  destruct (find (fun p => String.eqb (fst p) c) t) as [p|] eqn:E; [|reflexivity].
  apply find_some in E. destruct E as [Hin Hk]. apply String.eqb_eq in Hk.
  exfalso. apply Hn. apply in_map_iff. exists p. tauto.
Qed.

Lemma reindex_count_present (f : string -> nat) (l : list string) (c : string) :
  In c l -> reindex_count (map (fun k => (k, f k)) l) c = [Some (INR (f c))].
Proof.
  intros Hin. unfold reindex_count.
  destruct (find (fun p => String.eqb (fst p) c) (map (fun k => (k, f k)) l))
    as [p|] eqn:E.
  - apply find_some in E. destruct E as [Hp Hk]. apply String.eqb_eq in Hk.
    apply in_map_iff in Hp. destruct Hp as [k [<- _]]. simpl in Hk. subst.
    reflexivity.
  - assert (Hc : In (c, f c) (map (fun k => (k, f k)) l))
      by (apply in_map_iff; exists c; tauto).
    apply (find_none _ _ E) in Hc. simpl in Hc.
    rewrite String.eqb_refl in Hc. discriminate.
Qed.

(** The customers that get a row from [unstack] have a transaction whose
    product is known. *)
Lemma unstack_sum_labels (cs : list Customer) (ps : list Product)
  (ts : list Transaction) (agg : list FullRow -> R) (k : string) :
  In k (map fst (unstack_sum cs ps ts agg)) ->
  exists t p, In t ts /\ t_CustomerID t = k /\ In p ps /\
              ProductID p = t_ProductID t.
Proof.
  unfold unstack_sum. rewrite map_map. simpl. rewrite map_id.
  intros H. apply (proj1 (sorted_unique_In _ _)) in H.
  apply in_map_iff in H. destruct H as [[[t o] oc] [Hk Hin]].
  apply filter_In in Hin. destruct Hin as [Hin Hcat].
  unfold row_Category in Hcat. simpl in Hcat.
  destruct o as [p|]; [|discriminate].
  unfold full_data in Hin. apply merge_left_In_fst in Hin. simpl in Hin.
  unfold transactions_products in Hin. apply merge_left_In_Some in Hin.
  destruct Hin as [Ht [Hp Hm]]. apply String.eqb_eq in Hm.
  exists t, p. unfold row_CustomerID in Hk. simpl in Hk. auto.
Qed.

Lemma nunique_positive (l : list string) : l <> [] -> (1 <= nunique l)%nat.
Proof.
  destruct l as [|x l]; [contradiction|]. intros _. unfold nunique.
  assert (Hin : In x (nodup string_dec (x :: l)))
    by (apply nodup_In; left; reflexivity).
  destruct (nodup string_dec (x :: l)); [contradiction|simpl; lia].
Qed.

Lemma INR_ge_1 (n : nat) : (1 <= n)%nat -> 1 <= INR n.
Proof. intros H. apply le_INR in H. simpl in H. exact H. Qed.

(** C6, amended. Transactions that match no product or no customer do not
    make the build fail: the feature table is refused only for an empty
    customer collection or for clashing column labels.  A customer whose
    transactions all name unknown products has zero spend and zero quantity
    in every category, while its unique-product count and its transaction
    count still count these transactions: they are at least 1 as soon as
    the customer has a transaction. *)
Theorem malformed_joins_degrade
  (cs : list Customer) (ps : list Product) (ts : list Transaction) :
  (forall e, customer_data cs ps ts = Raise e ->
             cs = [] \/ label_clash cs ps ts = true) /\
  forall data k row,
    customer_data cs ps ts = Ok data ->
    In (k, row) data -> only_unmatched_products ps ts k ->
    exists up tt,
      aggregate_block (distinct_regions cs) row =
      repeat 0 (2 * distinct_categories ps ts) ++ [up; tt] /\
      ((exists t, In t ts /\ t_CustomerID t = k) -> 1 <= up /\ 1 <= tt).
Proof.
  split; [intros e He; apply (customer_data_raise _ _ _ _ He)|].
  intros data k row Hd Hin Hu.
  destruct (customer_data_In cs ps ts _ k row Hd Hin) as [c [Hc [-> ->]]].
  rewrite aggregate_block_feature_row.
  set (labels := sorted_unique (map row_CustomerID (full_data cs ps ts))).
  destruct (in_dec string_dec (CustomerID c) labels) as [Hl|Hl].
  - (* the customer has rows in the joined data *)
    destruct (find_some_label (CustomerID c) (transaction_features cs ps ts))
      as [v [Hf Hv]].
    { rewrite transaction_features_labels. apply transaction_index_In. exact Hl. }
    rewrite Hf. simpl snd.
    unfold transaction_features in Hv. apply in_map_iff in Hv.
    destruct Hv as [k' [Hv _]]. injection Hv as -> <-.
    unfold spend_per_category, quantity_per_category.
    rewrite !reindex_absent.
    2,3: intros Hk; apply unstack_sum_labels in Hk;
         destruct Hk as [t [p [Ht [Hk [Hp Hm]]]]];
         exact (Hu t Ht Hk p Hp Hm).
    unfold unique_products, total_transactions. fold labels.
    rewrite (reindex_count_present
               (fun k => nunique (map row_ProductID (customer_group cs ps ts k)))
               labels _ Hl).
    rewrite (reindex_count_present
               (fun k => nunique (map row_TransactionID (customer_group cs ps ts k)))
               labels _ Hl).
    rewrite !fillna0_app, !fillna0_None. simpl fillna0.
    rewrite category_columns_length.
    eexists. eexists. split.
    + rewrite app_assoc, <- repeat_app.
      replace (distinct_categories ps ts + distinct_categories ps ts)%nat
        with (2 * distinct_categories ps ts)%nat by lia.
      reflexivity.
    + intros _.
      assert (Hg : customer_group cs ps ts (CustomerID c) <> []).
      { apply (proj1 (sorted_unique_In _ _)) in Hl.
        apply in_map_iff in Hl. destruct Hl as [r [Hr Hinr]].
        intros E.
        assert (Hin' : In r (customer_group cs ps ts (CustomerID c)))
          by (apply filter_In; split; [exact Hinr|apply String.eqb_eq; exact Hr]).
        rewrite E in Hin'. contradiction. }
      split; apply INR_ge_1, nunique_positive; intros E;
        apply map_eq_nil in E; contradiction.
  - (* no row at all for this customer *)
    rewrite find_none_label
      by (rewrite transaction_features_labels;
          intros Hk; apply Hl; apply transaction_index_In; exact Hk).
    exists 0, 0. split.
    + rewrite transaction_width_eq, repeat_app. reflexivity.
    + intros [t [Ht Hk]]. exfalso. apply Hl.
      destruct (full_data_keeps cs ps ts t Ht) as [r [Hr Hfst]].
      apply sorted_unique_In. apply in_map_iff. exists r.
      split; [|exact Hr]. unfold row_CustomerID. rewrite Hfst. exact Hk.
Qed.

Lemma malformed_joins_degrade_witness :
  exists up tt,
    aggregate_block (distinct_regions unmatched_customers)
                    (feature_row unmatched_customers example_products
                                 unmatched_transactions
                                 (mkCustomer "A" (Some "X"))) =
    repeat 0 (2 * distinct_categories example_products
                                      unmatched_transactions) ++ [up; tt] /\
    ((exists t, In t unmatched_transactions /\ t_CustomerID t = "A") ->
     1 <= up /\ 1 <= tt).
Proof.
  apply (proj2 (malformed_joins_degrade unmatched_customers example_products
                                        unmatched_transactions)
               (map (fun c => (CustomerID c,
                               feature_row unmatched_customers example_products
                                           unmatched_transactions c))
                    unmatched_customers) "A").
  - apply customer_data_rows; [discriminate|reflexivity].
  - left. reflexivity.
  - intros t [<-|[<-|[]]] Hk p [<-|[]]; simpl in *; discriminate.
Defined.

(** ** Min-max scaling *)








Lemma ten_eps_bounds : 0 < 10 * eps < 1.
Proof. unfold eps. lra. Qed.

(** The guard of the scaler and of the normalizer: the guarded value is
    never zero. *)
Lemma handle_zeros_in_scale_pos (s : R) : 0 < handle_zeros_in_scale s.
Proof.
  pose proof ten_eps_bounds. unfold handle_zeros_in_scale.
  destruct (Rlt_dec s (10 * eps)); lra.
Qed.



Lemma float_div_defined (a b : R) : b <> 0 -> float_div a b = Some (a / b).
Proof.
  intros H. unfold float_div. destruct (Req_EM_T b 0); [contradiction|reflexivity].
Qed.

(** Thanks to the guard the scale of a column is a real number. *)
Lemma scale_defined (X : list (list R)) (j : nat) :
  scale_ X j = Some ((1 - 0) / handle_zeros_in_scale (data_range X j)).
Proof.
  unfold scale_. apply float_div_defined.
  pose proof (handle_zeros_in_scale_pos (data_range X j)). lra.
Qed.


(** Every cell the scaler returns is a real number. *)
Lemma MinMaxScaler_transform_finite (X : list (list R)) (row : list R) :
  MinMaxScaler_transform X row =
  map Some (map (scaled_value X row) (seq 0 (n_features X))).
Proof.
  unfold MinMaxScaler_transform. rewrite map_map. apply map_ext. intros j.
  unfold min_. rewrite scale_defined. reflexivity.
Qed.



Lemma MinMaxScaler_fit_transform_rows (X : list (list R)) :
  X <> [] -> n_features X <> O ->
  MinMaxScaler_fit_transform X = Ok (map (MinMaxScaler_transform X) X).
Proof.
  intros HX Hn. unfold MinMaxScaler_fit_transform.
  destruct X as [|r X']; [contradiction|].
  destruct (Nat.eqb_spec (n_features (r :: X')) 0); [contradiction|reflexivity].
Qed.

(** The scaled feature table, row by row. *)
Lemma customer_data_scaled_rows (cs : list Customer) (ps : list Product)
  (ts : list Transaction) :
  cs <> [] -> label_clash cs ps ts = false ->
  customer_data_scaled cs ps ts =
  Ok (map (fun c => (CustomerID c, map Some (scaled_row cs ps ts c))) cs).
Proof.
  intros Hne Hcl. unfold customer_data_scaled.
  rewrite (customer_data_rows cs ps ts Hne Hcl). unfold bind at 1.
  rewrite !map_map. simpl fst. simpl snd.
  rewrite MinMaxScaler_fit_transform_rows.
  - unfold bind. f_equal. rewrite map_map, combine_map_map.
    apply map_ext. intros c. rewrite MinMaxScaler_transform_finite. reflexivity.
  - destruct cs; [contradiction|discriminate].
  - destruct cs as [|c cs']; [contradiction|].
    simpl. rewrite feature_row_length. lia.
Qed.

Lemma customer_data_scaled_raise (cs : list Customer) (ps : list Product)
  (ts : list Transaction) :
  cs = [] \/ label_clash cs ps ts = true ->
  customer_data_scaled cs ps ts = Raise ValueError.
Proof.
  intros H. unfold customer_data_scaled.
  replace (customer_data cs ps ts) with (@Raise Table ValueError); [reflexivity|].
  symmetry. destruct H as [->|H]; [apply customer_data_empty|].
  apply customer_data_clash. exact H.
Qed.



(** ** Cosine similarity *)










Lemma finite_row_Some (l : list R) : finite_row (map Some l) = Some l.
Proof.
  induction l as [|x l IH]; simpl; [reflexivity|]. rewrite IH. reflexivity.
Qed.

Lemma finite_rows_Some (X : list (list R)) :
  finite_rows (map (map Some) X) = Some X.
Proof.
  induction X as [|r X IH]; simpl; [reflexivity|].
  rewrite finite_row_Some, IH. reflexivity.
Qed.

Lemma cosine_similarity_rows (X : list (list R)) :
  X <> [] -> n_features X <> O ->
  cosine_similarity (map (map Some) X) =
  Ok (map (fun u => map (fun v => dot u v) (map normalize_row X))
          (map normalize_row X)).
Proof.
  intros HX Hn. unfold cosine_similarity. rewrite finite_rows_Some.
  destruct X as [|r X']; [contradiction|].
  destruct (Nat.eqb_spec (n_features (r :: X')) 0); [contradiction|reflexivity].
Qed.

Lemma scaled_row_length (cs : list Customer) (ps : list Product)
  (ts : list Transaction) (c : Customer) :
  length (scaled_row cs ps ts c) = n_features (map (feature_row cs ps ts) cs).
Proof. unfold scaled_row. rewrite length_map. apply length_seq. Qed.

(** The similarity frame, entry by entry.  It is built when there is at
    least one customer and no column labels clash. *)
Lemma similarity_df_rows (cs : list Customer) (ps : list Product)
  (ts : list Transaction) :
  cs <> [] -> label_clash cs ps ts = false ->
  similarity_df cs ps ts =
  Ok (mkDataFrame
        (map CustomerID cs) (map CustomerID cs)
        (map (fun c => map (fun c' => dot (unit_row cs ps ts c)
                                          (unit_row cs ps ts c')) cs) cs)).
Proof.
  intros Hne Hcl. unfold similarity_df.
  rewrite (customer_data_scaled_rows cs ps ts Hne Hcl). unfold bind at 1.
  rewrite !map_map. simpl fst. simpl snd.
  rewrite <- (map_map (scaled_row cs ps ts) (map Some)).
  rewrite cosine_similarity_rows.
  - unfold bind. rewrite !map_map. f_equal. f_equal.
    apply map_ext. intros c. rewrite !map_map. reflexivity.
  - destruct cs; [contradiction|discriminate].
  - destruct cs as [|c cs']; [contradiction|].
    simpl. rewrite scaled_row_length. simpl.
    rewrite feature_row_length. lia.
Qed.

(** The similarity frame is refused, with [ValueError], for an empty
    customer collection and for clashing column labels. *)
Lemma similarity_df_raise (cs : list Customer) (ps : list Product)
  (ts : list Transaction) :
  cs = [] \/ label_clash cs ps ts = true ->
  similarity_df cs ps ts = Raise ValueError.
Proof.
  intros H. unfold similarity_df.
  rewrite (customer_data_scaled_raise cs ps ts H). reflexivity.
Qed.

Lemma similarity_df_built (cs : list Customer) (ps : list Product)
  (ts : list Transaction) (S : DataFrame) :
  similarity_df cs ps ts = Ok S -> cs <> [] /\ label_clash cs ps ts = false.
Proof.
  intros H. split.
  - intros E. rewrite similarity_df_raise in H by (left; exact E). discriminate.
  - destruct (label_clash cs ps ts) eqn:E; [|reflexivity].
    rewrite similarity_df_raise in H by (right; exact E). discriminate.
Qed.

Lemma similarity_df_inv (cs : list Customer) (ps : list Product)
  (ts : list Transaction) (S : DataFrame) :
  similarity_df cs ps ts = Ok S ->
  cs <> [] /\
  S = mkDataFrame
        (map CustomerID cs) (map CustomerID cs)
        (map (fun c => map (fun c' => dot (unit_row cs ps ts c)
                                          (unit_row cs ps ts c')) cs) cs).
Proof.
  intros H. destruct (similarity_df_built _ _ _ _ H) as [Hne Hcl].
  split; [exact Hne|]. rewrite (similarity_df_rows cs ps ts Hne Hcl) in H.
  congruence.
Qed.

Lemma nth_map_error {A B : Type} (g : A -> B) (l : list A) (i : nat) (d : B) :
  nth i (map g l) d = match nth_error l i with Some a => g a | None => d end.
Proof.
  revert i. induction l as [|a l IH]; intros [|i]; simpl; try reflexivity.
  apply IH.
Qed.

(** Entry [(i, j)] of a matrix of pairwise values. *)
Lemma nth_pairwise {A : Type} (f : A -> A -> R) (l : list A) (i j : nat) :
  nth j (nth i (map (fun a => map (f a) l) l) []) 0 =
  match nth_error l i, nth_error l j with
  | Some a, Some b => f a b
  | _, _ => 0
  end.
Proof.
  rewrite nth_map_error. destruct (nth_error l i) as [a|].
  - rewrite nth_map_error. reflexivity.
  - destruct j; reflexivity.
Qed.

(** ** The diagonal of the similarity matrix *)








(** ** The top-3 selection *)

Lemma top_3_customers_inv (S : DataFrame) (c : string) (res : Series) :
  top_3_customers S c = Ok res ->
  exists r,
    rows_labelled c S = [r] /\
    res = nlargest 3 (filter (fun p => negb (String.eqb (fst p) c))
                             (combine (df_columns S) r)).
Proof.
  unfold top_3_customers, loc.
  destruct (rows_labelled c S) as [|r [|r' rs]]; simpl; try discriminate.
  unfold drop. destruct (existsb _ _); simpl; [|discriminate].
  intros H. injection H as <-. exists r. split; reflexivity.
Qed.

Lemma rows_labelled_absent (S : DataFrame) (c : string) :
  ~ In c (df_index S) -> rows_labelled c S = [].
Proof.
  intros Hn. unfold rows_labelled.
  destruct (filter (fun p => String.eqb (fst p) c)
                   (combine (df_index S) (df_values S))) as [|p rest] eqn:E;
    [reflexivity|].
  exfalso. apply Hn.
  assert (Hin : In p (filter (fun p => String.eqb (fst p) c)
                             (combine (df_index S) (df_values S))))
    by (rewrite E; left; reflexivity).
  apply filter_In in Hin. destruct Hin as [Hin Hk].
  apply String.eqb_eq in Hk. subst c. destruct p as [k v].
  apply in_combine_l in Hin. exact Hin.
Qed.

(** C4. A query for a key that is absent from the index of the similarity
    matrix raises the key-lookup error of [.loc] ([KeyError], the
    specification's UnknownCustomerError); the recommendation loop does not
    catch it and ends with the same error. *)
Theorem unknown_customer_raises (S : DataFrame) (c : string) :
  ~ In c (df_index S) ->
  top_3_customers S c = Raise (KeyError c) /\
  forall ids d, lookalike_loop S (c :: ids) d = Raise (KeyError c).
Proof.
  intros Hn.
  assert (H : top_3_customers S c = Raise (KeyError c)).
  { unfold top_3_customers, loc. rewrite rows_labelled_absent by exact Hn.
    reflexivity. }
  split; [exact H|]. intros ids d. simpl. rewrite H. reflexivity.
Qed.

Lemma unknown_customer_raises_witness :
  top_3_customers (mkDataFrame ["A"; "B"] ["A"; "B"] [[1; 0]; [0; 1]]) "Z"
  = Raise (KeyError "Z") /\
  forall ids d,
    lookalike_loop (mkDataFrame ["A"; "B"] ["A"; "B"] [[1; 0]; [0; 1]])
                   ("Z" :: ids) d = Raise (KeyError "Z").
Proof.
  apply (unknown_customer_raises
           (mkDataFrame ["A"; "B"] ["A"; "B"] [[1; 0]; [0; 1]]) "Z").
  simpl. intros [H|[H|[]]]; discriminate.
Defined.

Lemma filter_key_absent {A : Type} (key : A -> string) (l : list A) (k : string) :
  ~ In k (map key l) -> filter (fun x => String.eqb (key x) k) l = [].
Proof.
  induction l as [|x l IH]; simpl; intros Hn; [reflexivity|].
  destruct (String.eqb (key x) k) eqn:E.
  - apply String.eqb_eq in E. exfalso. apply Hn. left. exact E.
  - apply IH. intros H. apply Hn. right. exact H.
Qed.

(** With duplicate-free keys exactly one record carries a key that occurs. *)
Lemma filter_key_single {A : Type} (key : A -> string) (l : list A) (a : A) :
  NoDup (map key l) -> In a l ->
  filter (fun x => String.eqb (key x) (key a)) l = [a].
Proof.
  induction l as [|x l IH]; simpl; intros Hnd Hin; [contradiction|].
  inversion Hnd as [|? ? Hnotin Hnd']; subst.
  destruct Hin as [->|Hin].
  - rewrite String.eqb_refl. f_equal. apply filter_key_absent. exact Hnotin.
  - destruct (String.eqb (key x) (key a)) eqn:E.
    + apply String.eqb_eq in E. exfalso. apply Hnotin. rewrite E.
      apply in_map. exact Hin.
    + apply IH; assumption.
Qed.

Lemma nlargest_length (n : nat) (s : Series) :
  length (nlargest n s) = Nat.min n (length s).
Proof.
  unfold nlargest. rewrite length_firstn.
  rewrite <- (Permutation_length (sort_values_desc_perm s)). reflexivity.
Qed.

Lemma lookalike_via_matrix (cs : list Customer) (ps : list Product)
  (ts : list Transaction) (S : DataFrame) (k : string) :
  similarity_df cs ps ts = Ok S ->
  lookalike cs ps ts k = top_3_customers S k.
Proof. intros HS. unfold lookalike. rewrite HS. reflexivity. Qed.

(** The candidates of a customer: every customer key paired with its
    similarity to the customer, the customer's own entry removed. *)
Lemma lookalike_closed (cs : list Customer) (ps : list Product)
  (ts : list Transaction) (S : DataFrame) (c : Customer) :
  similarity_df cs ps ts = Ok S ->
  NoDup (map CustomerID cs) -> In c cs ->
  lookalike cs ps ts (CustomerID c) =
  Ok (nlargest 3
        (filter (fun p : string * R => negb (String.eqb (fst p) (CustomerID c)))
                (map (fun a => (CustomerID a,
                                dot (unit_row cs ps ts c) (unit_row cs ps ts a)))
                     cs))).
Proof.
  intros HS Hnd Hin.
  rewrite (lookalike_via_matrix cs ps ts S _ HS).
  apply similarity_df_inv in HS. destruct HS as [_ ->].
  unfold top_3_customers, loc, rows_labelled. simpl df_index. simpl df_values.
  simpl df_columns.
  rewrite combine_map_map, filter_map_swap. simpl fst.
  rewrite (filter_key_single CustomerID cs c Hnd Hin). simpl map. simpl bind.
  rewrite combine_map_map. unfold drop.
  assert (Hex : existsb (fun p : string * R => String.eqb (fst p) (CustomerID c))
                  (map (fun a => (CustomerID a,
                                  dot (unit_row cs ps ts c) (unit_row cs ps ts a))) cs)
                = true).
  { apply existsb_exists. eexists. split; [apply in_map; exact Hin|].
    simpl. apply String.eqb_refl. }
  rewrite Hex. reflexivity.
Qed.

(** The specification's example is built, and so are the recommendations
    of its customer "A". *)
Lemma example_similarity_df :
  similarity_df example_customers example_products example_transactions =
  Ok (mkDataFrame
        (map CustomerID example_customers) (map CustomerID example_customers)
        (map (fun c =>
                map (fun c' =>
                       dot (unit_row example_customers example_products
                                     example_transactions c)
                           (unit_row example_customers example_products
                                     example_transactions c'))
                    example_customers)
             example_customers)).
Proof. apply similarity_df_rows; [discriminate|reflexivity]. Qed.

Lemma example_customers_NoDup : NoDup (map CustomerID example_customers).
Proof. repeat constructor; simpl; intuition discriminate. Qed.

Lemma example_lookalike :
  lookalike example_customers example_products example_transactions "A" =
  Ok (nlargest 3
        (filter (fun p : string * R => negb (String.eqb (fst p) "A"))
                (map (fun a =>
                        (CustomerID a,
                         dot (unit_row example_customers example_products
                                       example_transactions
                                       (mkCustomer "A" (Some "X")))
                             (unit_row example_customers example_products
                                       example_transactions a)))
                     example_customers))).
Proof.
  apply (lookalike_closed example_customers example_products
                          example_transactions _ (mkCustomer "A" (Some "X"))
                          example_similarity_df example_customers_NoDup).
  left. reflexivity.
Qed.

(** C10. When the customer keys of the profile collection are pairwise
    distinct, the neighbor keys recommended for a customer are pairwise
    distinct and none of them is the queried key. *)
Theorem neighbors_distinct_and_not_self
  (cs : list Customer) (ps : list Product) (ts : list Transaction)
  (c : string) (res : Series) :
  NoDup (map CustomerID cs) ->
  lookalike cs ps ts c = Ok res ->
  NoDup (map fst res) /\ ~ In c (map fst res).
Proof.
  intros Hnd H. unfold lookalike in H.
  destruct (similarity_df cs ps ts) as [S|e] eqn:HS; [|discriminate].
  simpl in H. apply similarity_df_inv in HS. destruct HS as [_ ->].
  apply top_3_customers_inv in H. destruct H as [r [_ ->]]. simpl df_columns.
  split.
  - apply nlargest_keys_NoDup.
    eapply subseq_NoDup; [|exact Hnd].
    eapply subseq_trans; [apply subseq_map, subseq_filter_l|].
    apply subseq_combine_fst.
  - intros Hin. apply in_map_iff in Hin. destruct Hin as [p [Hp Hin]].
    apply nlargest_In in Hin. apply filter_In in Hin. destruct Hin as [_ Hk].
    rewrite <- Hp, String.eqb_refl in Hk. discriminate.
Qed.

Lemma neighbors_distinct_and_not_self_witness :
  exists res,
    lookalike example_customers example_products example_transactions "A" = Ok res /\
    NoDup (map fst res) /\ ~ In "A" (map fst res).
Proof.
  eexists. split; [exact example_lookalike|].
  eapply (neighbors_distinct_and_not_self
            example_customers example_products example_transactions "A").
  - exact example_customers_NoDup.
  - exact example_lookalike.
Defined.

(** C1, amended. The recommendations of a customer are sorted by descending
    score, and two neighbors with exactly equal scores appear in the order
    in which their records appear in the customer collection. *)
Theorem top_3_descending_ties_in_collection_order
  (cs : list Customer) (ps : list Product) (ts : list Transaction)
  (c : string) (res : Series) :
  lookalike cs ps ts c = Ok res ->
  scores_descending res /\
  forall k1 k2 s,
    appears_before (k1, s) (k2, s) res ->
    appears_before k1 k2 (map CustomerID cs).
Proof.
  intros H. unfold lookalike in H.
  destruct (similarity_df cs ps ts) as [S|e] eqn:HS; [|discriminate].
  simpl in H. apply similarity_df_inv in HS. destruct HS as [_ ->].
  apply top_3_customers_inv in H. destruct H as [r [_ ->]]. simpl df_columns.
  split; [apply nlargest_descending|].
  intros k1 k2 s Hb.
  apply nlargest_ties_in_order in Hb; [|reflexivity].
  unfold appears_before in *.
  apply (subseq_map fst) in Hb. simpl in Hb.
  eapply subseq_trans; [exact Hb|].
  eapply subseq_trans; [apply subseq_map, subseq_filter_l|].
  apply subseq_combine_fst.
Qed.

Lemma top_3_descending_ties_in_collection_order_witness :
  exists res,
    lookalike example_customers example_products example_transactions "A" = Ok res /\
    scores_descending res /\
    forall k1 k2 s,
      appears_before (k1, s) (k2, s) res ->
      appears_before k1 k2 ["A"; "B"; "C"].
Proof.
  eexists. split; [exact example_lookalike|].
  eapply (top_3_descending_ties_in_collection_order
            example_customers example_products example_transactions "A").
  exact example_lookalike.
Defined.

Lemma tie_rows_equal :
  let u := unit_row tie_customers example_products tie_transactions in
  u (mkCustomer "B" (Some "Y")) = u (mkCustomer "C" (Some "Y")) /\
  u (mkCustomer "D" (Some "Y")) = u (mkCustomer "C" (Some "Y")) /\
  u (mkCustomer "E" (Some "Y")) = u (mkCustomer "C" (Some "Y")).
Proof. repeat split; reflexivity. Qed.

(** The recommendations computed for "A" over [tie_customers]: all four
    candidates have the same score, and the first three of the collection
    are returned in collection order. *)
Lemma tie_lookalike :
  exists s,
    lookalike tie_customers example_products tie_transactions "A" =
    Ok [("C", s); ("B", s); ("D", s)].
Proof.
  exists (dot (unit_row tie_customers example_products tie_transactions
                        (mkCustomer "A" (Some "X")))
              (unit_row tie_customers example_products tie_transactions
                        (mkCustomer "C" (Some "Y")))).
  unfold lookalike.
  rewrite (similarity_df_rows tie_customers example_products tie_transactions
                              ltac:(discriminate) eq_refl).
  pose proof tie_rows_equal as HY. cbv zeta in HY.
  remember (unit_row tie_customers example_products tie_transactions)
    as u eqn:Hu.
  clear Hu. destruct HY as [HB [HD HE]].
  unfold tie_customers. simpl.
  rewrite HB, HD, HE.
  unfold top_3_customers, loc, rows_labelled, drop, nlargest, bind. simpl.
  repeat (simpl; destruct (Rlt_dec _ _) as [Hlt|_]; [lra|]). reflexivity.
Qed.

(** C1, as stated, fails: for "A" over [tie_customers] the neighbors "C"
    and "B" have the same score and "C" comes first. *)
Lemma ties_not_in_key_order :
  exists res,
    lookalike tie_customers example_products tie_transactions "A" = Ok res /\
    ~ spec_top_k_order res.
Proof.
  destruct tie_lookalike as [s Hs].
  exists [("C", s); ("B", s); ("D", s)]. split; [exact Hs|].
  intros H. inversion H as [|? ? _ Hall]; subst.
  inversion Hall as [|? ? Hcb _]; subst.
  destruct Hcb as [Hlt|[_ Hkey]]; simpl in *; [lra|discriminate].
Qed.

(** * Further properties of the pipeline *)

(** ** One-hot rows *)

Lemma OneHotEncoder_transform_absent (l : list (option string))
  (v : option string) :
  ~ In v l -> OneHotEncoder_transform l v = repeat 0 (length l).
Proof.
  unfold OneHotEncoder_transform.
  induction l as [|x l IH]; simpl; intros Hn; [reflexivity|].
  destruct (option_string_eqb x v) eqn:E.
  - apply option_string_eqb_eq in E. exfalso. apply Hn. left. exact E.
  - f_equal. apply IH. intros H. apply Hn. right. exact H.
Qed.

Lemma OneHotEncoder_transform_position (l : list (option string)) (j : nat)
  (v : option string) :
  NoDup l -> nth_error l j = Some v ->
  OneHotEncoder_transform l v = repeat 0 j ++ 1 :: repeat 0 (length l - j - 1).
Proof.
  revert j. induction l as [|x l IH]; intros [|j] Hnd Hj; try discriminate.
  - simpl in Hj. injection Hj as ->. inversion Hnd as [|? ? Hn _]; subst.
    change (OneHotEncoder_transform (v :: l) v)
      with ((if option_string_eqb v v then 1 else 0)
              :: OneHotEncoder_transform l v).
    rewrite (proj2 (option_string_eqb_eq v v) eq_refl).
    rewrite OneHotEncoder_transform_absent by exact Hn.
    simpl. rewrite Nat.sub_0_r. reflexivity.
  - simpl in Hj. inversion Hnd as [|? ? Hn Hnd']; subst.
    change (OneHotEncoder_transform (x :: l) v)
      with ((if option_string_eqb x v then 1 else 0)
              :: OneHotEncoder_transform l v).
    destruct (option_string_eqb x v) eqn:E.
    + apply option_string_eqb_eq in E. subst x. exfalso. apply Hn.
      eapply nth_error_In. exact Hj.
    + rewrite (IH j Hnd' Hj). reflexivity.
Qed.

(** X1. Every customer record is encoded by a row that holds a single 1, at
    the position of its region in the category order, and 0 everywhere
    else. *)
Theorem one_hot_row_has_single_one (cs : list Customer) (i : nat) (c : Customer) :
  nth_error cs i = Some c ->
  exists rows j,
    region_encoded cs = Ok rows /\
    nth_error (OneHotEncoder_categories (map Region cs)) j = Some (Region c) /\
    nth_error rows i =
    Some (repeat 0 j ++ 1 :: repeat 0 (distinct_regions cs - j - 1)).
Proof.
  intros Hi.
  assert (Hne : cs <> []) by (intros ->; destruct i; discriminate).
  assert (Hin : In (Region c) (OneHotEncoder_categories (map Region cs))).
  { apply OneHotEncoder_categories_In. apply in_map.
    eapply nth_error_In. exact Hi. }
  apply In_nth_error in Hin. destruct Hin as [j Hj].
  eexists. exists j. split; [apply region_encoded_rows; exact Hne|].
  split; [exact Hj|].
  rewrite nth_error_map, Hi. simpl. f_equal.
  rewrite <- OneHotEncoder_categories_length.
  apply OneHotEncoder_transform_position;
    [apply OneHotEncoder_categories_NoDup|exact Hj].
Qed.

Lemma one_hot_row_has_single_one_witness :
  exists rows j,
    region_encoded example_customers = Ok rows /\
    nth_error (OneHotEncoder_categories (map Region example_customers)) j
    = Some (Some "Y") /\
    nth_error rows 2 =
    Some (repeat 0 j ++ 1 :: repeat 0 (distinct_regions example_customers - j - 1)).
Proof.
  apply (one_hot_row_has_single_one example_customers 2
                                    (mkCustomer "C" (Some "Y"))).
  reflexivity.
Defined.

(** ** The columns of the aggregate block *)

(** X2. The category columns produced by [unstack] are pairwise distinct
    and are exactly the categories of the products that some transaction
    names: a category that is never purchased gets no column, whatever the
    customer collection is. *)
Theorem category_columns_are_purchased_categories
  (cs : list Customer) (ps : list Product) (ts : list Transaction) :
  NoDup (category_columns cs ps ts) /\
  forall cat,
    In cat (category_columns cs ps ts) <-> In cat (purchased_categories ps ts).
Proof.
  split.
  - apply sorted_unique_NoDup.
  - intros cat. unfold category_columns.
    rewrite sorted_unique_In, defined_In. apply full_data_category.
Qed.

(** ** The joined data *)

Lemma find_hd_filter {A : Type} (f : A -> bool) (l : list A) :
  find f l = hd_error (filter f l).
Proof.
  induction l as [|x l IH]; simpl; [reflexivity|].
  destruct (f x); [reflexivity|exact IH].
Qed.

Lemma filter_match_le1 {B : Type} (kb : B -> string) (k : string)
  (r : list B) :
  NoDup (map kb r) ->
  (length (filter (fun b => String.eqb k (kb b)) r) <= 1)%nat.
Proof.
  induction r as [|b r IH]; simpl; intros Hnd; [lia|].
  inversion Hnd as [|? ? Hn Hnd']; subst.
  destruct (String.eqb k (kb b)) eqn:E.
  - apply String.eqb_eq in E. subst k. simpl.
    destruct (filter (fun b0 => String.eqb (kb b) (kb b0)) r) as [|b' rest] eqn:F;
      [simpl; lia|].
    exfalso. apply Hn.
    assert (Hin : In b' (filter (fun b0 => String.eqb (kb b) (kb b0)) r))
      by (rewrite F; left; reflexivity).
    apply filter_In in Hin. destruct Hin as [Hin Hk].
    apply String.eqb_eq in Hk. rewrite Hk. apply in_map. exact Hin.
  - apply IH. exact Hnd'.
Qed.

(** A left join against a collection with pairwise distinct keys pairs every
    left row with its match, or with nothing: no row is repeated. *)
Lemma merge_left_unique {A B : Type} (ka : A -> string) (kb : B -> string)
  (l : list A) (r : list B) :
  NoDup (map kb r) ->
  merge_left (fun a b => String.eqb (ka a) (kb b)) l r =
  map (fun a => (a, find (fun b => String.eqb (ka a) (kb b)) r)) l.
Proof.
  intros Hnd. induction l as [|a l IH]; [reflexivity|].
  rewrite merge_left_cons, IH. simpl. f_equal.
  rewrite find_hd_filter.
  pose proof (filter_match_le1 kb (ka a) r Hnd) as Hle.
  destruct (filter (fun b => String.eqb (ka a) (kb b)) r) as [|b [|b' rest]];
    simpl in *; try reflexivity. lia.
Qed.

Lemma full_data_unique (cs : list Customer) (ps : list Product)
  (ts : list Transaction) :
  NoDup (map ProductID ps) -> NoDup (map CustomerID cs) ->
  full_data cs ps ts =
  map (fun t =>
         (t,
          find (fun p => String.eqb (t_ProductID t) (ProductID p)) ps,
          find (fun c => String.eqb (t_CustomerID t) (CustomerID c)) cs))
      ts.
Proof.
  intros Hp Hc. unfold full_data, transactions_products.
  rewrite (merge_left_unique t_ProductID ProductID ts ps Hp).
  rewrite (merge_left_unique (fun tp : Transaction * option Product =>
                                t_CustomerID (fst tp))
                             CustomerID _ cs Hc).
  rewrite map_map. reflexivity.
Qed.

(** X3. When product keys are pairwise distinct and customer keys are
    pairwise distinct, the joined data holds exactly one row per
    transaction, in the order of the transactions: nothing is dropped and
    nothing is repeated. *)
Theorem full_data_one_row_per_transaction
  (cs : list Customer) (ps : list Product) (ts : list Transaction) :
  NoDup (map ProductID ps) -> NoDup (map CustomerID cs) ->
  map (fun r : FullRow => fst (fst r)) (full_data cs ps ts) = ts /\
  forall r, In r (full_data cs ps ts) ->
            row_Category r = category_of ps (fst (fst r)).
Proof.
  intros Hp Hc. rewrite (full_data_unique cs ps ts Hp Hc). split.
  - rewrite map_map. simpl. apply map_id.
  - intros r Hr. apply in_map_iff in Hr. destruct Hr as [t [<- _]].
    reflexivity.
Qed.

Lemma full_data_one_row_per_transaction_witness :
  map (fun r : FullRow => fst (fst r))
      (full_data example_customers example_products example_transactions)
  = example_transactions /\
  forall r,
    In r (full_data example_customers example_products example_transactions) ->
    row_Category r = category_of example_products (fst (fst r)).
Proof.
  apply (full_data_one_row_per_transaction
           example_customers example_products example_transactions).
  - repeat constructor; simpl; intuition discriminate.
  - repeat constructor; simpl; intuition discriminate.
Defined.

(** ** The cells of the aggregate block *)

Lemma transaction_features_find (cs : list Customer) (ps : list Product)
  (ts : list Transaction) (k : string) :
  In k (sorted_unique (map row_CustomerID (full_data cs ps ts))) ->
  find (fun r => String.eqb k (fst r)) (transaction_features cs ps ts) =
  Some (k,
        fillna0 (reindex (spend_per_category cs ps ts)
                         (length (category_columns cs ps ts)) k ++
                 reindex (quantity_per_category cs ps ts)
                         (length (category_columns cs ps ts)) k ++
                 reindex_count (unique_products cs ps ts) k ++
                 reindex_count (total_transactions cs ps ts) k)).
Proof.
  intros Hl.
  destruct (find_some_label k (transaction_features cs ps ts)) as [v [Hf Hv]].
  { rewrite transaction_features_labels. apply transaction_index_In. exact Hl. }
  rewrite Hf. unfold transaction_features in Hv. apply in_map_iff in Hv.
  destruct Hv as [k' [Hv _]]. injection Hv as -> <-. reflexivity.
Qed.

(** A customer key labels a row of [transaction_features] exactly when the
    customer has a transaction. *)
Lemma transaction_labels_iff (cs : list Customer) (ps : list Product)
  (ts : list Transaction) (k : string) :
  In k (sorted_unique (map row_CustomerID (full_data cs ps ts))) <->
  transactions_of ts k <> [].
Proof.
  rewrite sorted_unique_In, in_map_iff. split.
  - intros [r [Hk Hr]] E. apply full_data_transaction in Hr.
    assert (Hin : In (fst (fst r)) (transactions_of ts k))
      by (apply filter_In; split; [exact Hr|apply String.eqb_eq; exact Hk]).
    rewrite E in Hin. contradiction.
  - intros Hne. destruct (transactions_of ts k) as [|t rest] eqn:E;
      [contradiction|].
    assert (Hin : In t (transactions_of ts k)) by (rewrite E; left; reflexivity).
    apply filter_In in Hin. destruct Hin as [Ht Hk]. apply String.eqb_eq in Hk.
    destruct (full_data_keeps cs ps ts t Ht) as [r [Hr Hfst]].
    exists r. split; [|exact Hr]. unfold row_CustomerID. rewrite Hfst. exact Hk.
Qed.

(** The values a transaction column takes in one group of
    [groupby('CustomerID')] are the values it takes over the customer's
    transactions, however often the joins repeat a row. *)
Lemma customer_group_values (cs : list Customer) (ps : list Product)
  (ts : list Transaction) (f : Transaction -> string) (k x : string) :
  In x (map (fun r : FullRow => f (fst (fst r))) (customer_group cs ps ts k)) <->
  In x (map f (transactions_of ts k)).
Proof.
  rewrite !in_map_iff. split.
  - intros [r [Hx Hr]]. apply filter_In in Hr. destruct Hr as [Hr Hk].
    exists (fst (fst r)). split; [exact Hx|].
    apply filter_In. split; [apply (full_data_transaction cs ps ts r Hr)|exact Hk].
  - intros [t [Hx Ht]]. apply filter_In in Ht. destruct Ht as [Ht Hk].
    destruct (full_data_keeps cs ps ts t Ht) as [r [Hr Hfst]].
    exists r. split; [rewrite Hfst; exact Hx|].
    apply filter_In. split; [exact Hr|].
    unfold row_CustomerID. rewrite Hfst. exact Hk.
Qed.

Lemma fillna0_length (l : list (option R)) : length (fillna0 l) = length l.
Proof. unfold fillna0. apply length_map. Qed.

Lemma unstack_sum_rows (cs : list Customer) (ps : list Product)
  (ts : list Transaction) (agg : list FullRow -> R) :
  forall p, In p (unstack_sum cs ps ts agg) ->
            length (snd p) = length (category_columns cs ps ts).
Proof. intros p. apply unstack_sum_row_length. Qed.

(** X4. In every feature vector the last two cells are the number of
    distinct product keys and the number of distinct transaction keys among
    the customer's transactions (0 and 0 for a customer without
    transactions); rows repeated by the joins are not counted twice. *)
Theorem purchase_count_cells
  (cs : list Customer) (ps : list Product) (ts : list Transaction)
  (data : Table) (k : string) (row : list R) :
  customer_data cs ps ts = Ok data ->
  In (k, row) data ->
  skipn (2 * distinct_categories ps ts)
        (aggregate_block (distinct_regions cs) row) =
  [INR (nunique (map t_ProductID (transactions_of ts k)));
   INR (nunique (map TransactionID (transactions_of ts k)))].
Proof.
  intros Hd Hin.
  destruct (customer_data_In cs ps ts _ k row Hd Hin) as [c [Hc [-> ->]]].
  rewrite aggregate_block_feature_row.
  set (labels := sorted_unique (map row_CustomerID (full_data cs ps ts))).
  destruct (in_dec string_dec (CustomerID c) labels) as [Hl|Hl].
  - rewrite (transaction_features_find cs ps ts _ Hl). simpl snd.
    unfold unique_products, total_transactions. fold labels.
    rewrite (reindex_count_present
               (fun k => nunique (map row_ProductID (customer_group cs ps ts k)))
               labels _ Hl).
    rewrite (reindex_count_present
               (fun k => nunique (map row_TransactionID (customer_group cs ps ts k)))
               labels _ Hl).
    rewrite app_assoc, fillna0_app.
    replace (2 * distinct_categories ps ts)%nat
      with (length (fillna0
                      (reindex (spend_per_category cs ps ts)
                               (length (category_columns cs ps ts)) (CustomerID c) ++
                       reindex (quantity_per_category cs ps ts)
                               (length (category_columns cs ps ts)) (CustomerID c)))).
    + rewrite skipn_length_app. simpl. f_equal; [|f_equal]; f_equal.
      * apply nunique_ext. intros x.
        apply (customer_group_values cs ps ts t_ProductID).
      * apply nunique_ext. intros x.
        apply (customer_group_values cs ps ts TransactionID).
    + rewrite fillna0_length, length_app.
      unfold spend_per_category, quantity_per_category.
      rewrite !reindex_length by apply unstack_sum_rows.
      rewrite category_columns_length. lia.
  - rewrite find_none_label
      by (rewrite transaction_features_labels;
          intros Hk; apply Hl; apply transaction_index_In; exact Hk).
    rewrite transaction_width_eq, repeat_app.
    rewrite <- (repeat_length 0 (2 * distinct_categories ps ts)) at 1.
    rewrite skipn_length_app.
    assert (E : transactions_of ts (CustomerID c) = []).
    { destruct (transactions_of ts (CustomerID c)) as [|t rest] eqn:E;
        [reflexivity|].
      exfalso. apply Hl. apply transaction_labels_iff. rewrite E. discriminate. }
    rewrite E. reflexivity.
Qed.

Lemma purchase_count_cells_witness :
  skipn (2 * distinct_categories example_products unmatched_transactions)
        (aggregate_block
           (distinct_regions unmatched_customers)
           (feature_row unmatched_customers example_products
                        unmatched_transactions (mkCustomer "A" (Some "X")))) =
  [INR (nunique (map t_ProductID (transactions_of unmatched_transactions "A")));
   INR (nunique (map TransactionID (transactions_of unmatched_transactions "A")))].
Proof.
  apply (purchase_count_cells
           unmatched_customers example_products unmatched_transactions
           (map (fun c => (CustomerID c,
                           feature_row unmatched_customers example_products
                                       unmatched_transactions c))
                unmatched_customers) "A").
  - apply customer_data_rows; [discriminate|reflexivity].
  - left. reflexivity.
Defined.

(** ** Shape and entries of the similarity matrix *)

(** X8. The similarity frame is square and labelled by the customer keys on
    both axes, in the order of the customer collection: one row and one
    column per customer record. *)
Theorem similarity_matrix_shape
  (cs : list Customer) (ps : list Product) (ts : list Transaction)
  (S : DataFrame) :
  similarity_df cs ps ts = Ok S ->
  df_index S = map CustomerID cs /\
  df_columns S = map CustomerID cs /\
  length (df_values S) = length cs /\
  forall row, In row (df_values S) -> length row = length cs.
Proof.
  intros HS. apply similarity_df_inv in HS. destruct HS as [_ ->]. simpl.
  repeat split.
  - apply length_map.
  - intros row Hrow. apply in_map_iff in Hrow. destruct Hrow as [c [<- _]].
    apply length_map.
Qed.

Lemma similarity_matrix_shape_witness :
  exists S,
    similarity_df example_customers example_products example_transactions = Ok S /\
    df_index S = ["A"; "B"; "C"] /\
    df_columns S = ["A"; "B"; "C"] /\
    length (df_values S) = 3%nat /\
    forall row, In row (df_values S) -> length row = 3%nat.
Proof.
  eexists. split; [exact example_similarity_df|].
  apply (similarity_matrix_shape
           example_customers example_products example_transactions).
  exact example_similarity_df.
Defined.

(** ** Queries against the similarity matrix *)

Lemma sim_unit_rows (cs : list Customer) (ps : list Product)
  (ts : list Transaction) (S : DataFrame) (i j : nat) (c c' : Customer) :
  similarity_df cs ps ts = Ok S ->
  nth_error cs i = Some c -> nth_error cs j = Some c' ->
  sim S i j = dot (unit_row cs ps ts c) (unit_row cs ps ts c').
Proof.
  intros HS Hi Hj. apply similarity_df_inv in HS. destruct HS as [_ ->].
  unfold sim. simpl df_values.
  rewrite (nth_pairwise (fun c c' => dot (unit_row cs ps ts c)
                                         (unit_row cs ps ts c'))).
  rewrite Hi, Hj. reflexivity.
Qed.

(** X11. When the similarity matrix is built and customer keys are
    pairwise distinct, a query for a customer of the collection returns
    normally; it yields three entries, or one per other customer when there
    are fewer than three, and every entry pairs the key of a customer with
    the entry of the similarity matrix between the queried customer and
    that customer. *)
Theorem query_returns_matrix_entries
  (cs : list Customer) (ps : list Product) (ts : list Transaction)
  (S : DataFrame) (i : nat) (c : Customer) :
  similarity_df cs ps ts = Ok S ->
  NoDup (map CustomerID cs) ->
  nth_error cs i = Some c ->
  exists res,
    lookalike cs ps ts (CustomerID c) = Ok res /\
    length res = Nat.min 3 (length cs - 1) /\
    forall k s,
      In (k, s) res ->
      exists j c', nth_error cs j = Some c' /\ CustomerID c' = k /\
                   s = sim S i j.
Proof.
  intros HS Hnd Hi.
  assert (Hin : In c cs) by (eapply nth_error_In; exact Hi).
  eexists. split; [apply (lookalike_closed cs ps ts S c HS Hnd Hin)|]. split.
  - rewrite nlargest_length. f_equal.
    pose proof (filter_length
                  (fun p : string * R => String.eqb (fst p) (CustomerID c))
                  (map (fun a => (CustomerID a,
                                  dot (unit_row cs ps ts c) (unit_row cs ps ts a))) cs))
      as Hlen.
    rewrite filter_map_swap in Hlen. simpl fst in Hlen.
    rewrite (filter_key_single CustomerID cs c Hnd Hin) in Hlen.
    rewrite !length_map in Hlen. simpl in Hlen. lia.
  - intros k s Hks. apply nlargest_In in Hks.
    apply filter_In in Hks. destruct Hks as [Hks _].
    apply in_map_iff in Hks. destruct Hks as [c' [E Hc']].
    injection E as <- <-.
    apply In_nth_error in Hc'. destruct Hc' as [j Hj].
    exists j, c'. split; [exact Hj|]. split; [reflexivity|].
    symmetry. apply (sim_unit_rows cs ps ts _ i j c c' HS Hi Hj).
Qed.

Lemma query_returns_matrix_entries_witness :
  exists S res,
    similarity_df example_customers example_products example_transactions = Ok S /\
    lookalike example_customers example_products example_transactions "A" = Ok res /\
    length res = 2%nat /\
    forall k s,
      In (k, s) res ->
      exists j c', nth_error example_customers j = Some c' /\
                   CustomerID c' = k /\ s = sim S 0 j.
Proof.
  destruct (query_returns_matrix_entries
              example_customers example_products example_transactions
              _ 0 (mkCustomer "A" (Some "X"))
              example_similarity_df example_customers_NoDup eq_refl)
    as [res H].
  eexists. exists res. split; [exact example_similarity_df|exact H].
Defined.

Lemma StronglySorted_app_inv {A : Type} (rel : A -> A -> Prop)
  (l1 l2 : list A) (a b : A) :
  StronglySorted rel (l1 ++ l2) -> In a l1 -> In b l2 -> rel a b.
Proof.
  induction l1 as [|x l1 IH]; simpl; intros Hs Ha Hb; [contradiction|].
  inversion Hs as [|? ? Hs' Hall]; subst.
  destruct Ha as [->|Ha].
  - rewrite Forall_forall in Hall. apply Hall. apply in_or_app. right. exact Hb.
  - apply IH; assumption.
Qed.

(** The entries left out by [nlargest] are not larger than any entry it
    keeps. *)
Lemma nlargest_dominates (n : nat) (s : Series) (p q : string * R) :
  In p (nlargest n s) -> In q s -> ~ In q (nlargest n s) -> snd q <= snd p.
Proof.
  unfold nlargest. intros Hp Hq Hnq.
  apply (Permutation_in _ (sort_values_desc_perm s)) in Hq.
  rewrite <- (firstn_skipn n (sort_values_desc s)) in Hq.
  apply in_app_or in Hq. destruct Hq as [Hq|Hq]; [contradiction|].
  pose proof (sort_values_desc_sorted s) as Hs. unfold scores_descending in Hs.
  rewrite <- (firstn_skipn n (sort_values_desc s)) in Hs.
  apply (StronglySorted_app_inv score_ge _ _ p q Hs Hp Hq).
Qed.

(** X12. The neighbors returned for a customer are the most similar ones:
    any other customer that is not returned has a similarity to the queried
    customer that is at most the score of every returned neighbor. *)
Theorem unreturned_customers_score_lower
  (cs : list Customer) (ps : list Product) (ts : list Transaction)
  (S : DataFrame) (res : Series) (i j : nat) (c c' : Customer) :
  NoDup (map CustomerID cs) ->
  similarity_df cs ps ts = Ok S ->
  nth_error cs i = Some c -> nth_error cs j = Some c' -> i <> j ->
  lookalike cs ps ts (CustomerID c) = Ok res ->
  ~ In (CustomerID c') (map fst res) ->
  forall k s, In (k, s) res -> sim S i j <= s.
Proof.
  intros Hnd HS Hi Hj Hij Hres Hnot k s Hks.
  assert (Hin : In c cs) by (eapply nth_error_In; exact Hi).
  assert (Hin' : In c' cs) by (eapply nth_error_In; exact Hj).
  rewrite (lookalike_closed cs ps ts S c HS Hnd Hin) in Hres. injection Hres as <-.
  rewrite (sim_unit_rows cs ps ts S i j c c' HS Hi Hj).
  change (snd (CustomerID c', dot (unit_row cs ps ts c) (unit_row cs ps ts c'))
          <= snd (k, s)).
  eapply nlargest_dominates; [exact Hks| |].
  - apply filter_In. split.
    + apply in_map_iff. exists c'. split; [reflexivity|exact Hin'].
    + simpl. apply negb_true_iff. apply String.eqb_neq. intros E.
      apply Hij.
      assert (Hi' : nth_error (map CustomerID cs) i = Some (CustomerID c))
        by (rewrite nth_error_map, Hi; reflexivity).
      assert (Hj' : nth_error (map CustomerID cs) j = Some (CustomerID c))
        by (rewrite nth_error_map, Hj; simpl; rewrite E; reflexivity).
      apply (proj1 (NoDup_nth_error (map CustomerID cs)) Hnd i j).
      * apply nth_error_Some. rewrite Hi'. discriminate.
      * rewrite Hi', Hj'. reflexivity.
  - intros H. apply Hnot. apply in_map_iff.
    eexists. split; [|exact H]. reflexivity.
Qed.

(** The recommendations over [tie_customers] leave out "E". *)
Lemma unreturned_customers_score_lower_witness :
  exists S res,
    similarity_df tie_customers example_products tie_transactions = Ok S /\
    lookalike tie_customers example_products tie_transactions "A" = Ok res /\
    forall k s, In (k, s) res -> sim S 0 4 <= s.
Proof.
  pose proof (similarity_df_rows tie_customers example_products
                tie_transactions ltac:(discriminate) eq_refl) as HS.
  destruct tie_lookalike as [s0 Hs0].
  eexists. eexists. split; [exact HS|]. split; [exact Hs0|].
  eapply (unreturned_customers_score_lower
            tie_customers example_products tie_transactions _ _ 0 4
            (mkCustomer "A" (Some "X")) (mkCustomer "E" (Some "Y"))).
  - repeat constructor; simpl; intuition discriminate.
  - exact HS.
  - reflexivity.
  - reflexivity.
  - discriminate.
  - exact Hs0.
  - simpl. intuition discriminate.
Defined.

(** X13. When the similarity matrix is built, a customer key carried by
    two or more customer records cannot be queried: [.loc] then yields a
    frame instead of a Series and the selection raises [TypeError]. *)
Theorem duplicated_key_raises_TypeError
  (cs : list Customer) (ps : list Product) (ts : list Transaction)
  (S : DataFrame) (k : string) :
  similarity_df cs ps ts = Ok S ->
  (2 <= length (filter (fun c => String.eqb (CustomerID c) k) cs))%nat ->
  lookalike cs ps ts k = Raise TypeError.
Proof.
  intros HS Hdup.
  rewrite (lookalike_via_matrix cs ps ts S k HS).
  apply similarity_df_inv in HS. destruct HS as [_ ->].
  unfold top_3_customers, loc, rows_labelled. simpl df_index. simpl df_values.
  rewrite combine_map_map, filter_map_swap. simpl fst. rewrite map_map.
  destruct (filter (fun c => String.eqb (CustomerID c) k) cs)
    as [|c1 [|c2 rest]]; simpl in Hdup; try lia.
  reflexivity.
Qed.

Lemma duplicated_key_raises_TypeError_witness :
  lookalike (mkCustomer "A" (Some "X") :: example_customers)
            example_products example_transactions "A" = Raise TypeError.
Proof.
  apply (duplicated_key_raises_TypeError
           (mkCustomer "A" (Some "X") :: example_customers)
           example_products example_transactions
           (mkDataFrame
              (map CustomerID (mkCustomer "A" (Some "X") :: example_customers))
              (map CustomerID (mkCustomer "A" (Some "X") :: example_customers))
              (map (fun c =>
                      map (fun c' =>
                             dot (unit_row (mkCustomer "A" (Some "X")
                                                       :: example_customers)
                                           example_products example_transactions c)
                                 (unit_row (mkCustomer "A" (Some "X")
                                                       :: example_customers)
                                           example_products example_transactions c'))
                          (mkCustomer "A" (Some "X") :: example_customers))
                   (mkCustomer "A" (Some "X") :: example_customers)))
           "A").
  - apply similarity_df_rows; [discriminate|reflexivity].
  - simpl. lia.
Defined.

(** ** The recommendation loop *)

Lemma dict_set_fresh (d : dict) (k : string) (v : Series) :
  ~ In k (map fst d) -> dict_set d k v = d ++ [(k, v)].
Proof.
  induction d as [|[k' v'] d IH]; simpl; intros Hn; [reflexivity|].
  destruct (String.eqb k' k) eqn:E.
  - apply String.eqb_eq in E. exfalso. apply Hn. left. exact E.
  - f_equal. apply IH. intros H. apply Hn. right. exact H.
Qed.

(** Over pairwise distinct keys that all can be queried, the loop appends
    one entry per key, in order. *)
Lemma lookalike_loop_fresh (S : DataFrame) (ids : list string) (d : dict) :
  NoDup ids ->
  (forall k, In k ids -> ~ In k (map fst d)) ->
  (forall k, In k ids -> exists v, top_3_customers S k = Ok v) ->
  exists d',
    lookalike_loop S ids d = Ok (d ++ d') /\
    map fst d' = ids /\
    forall k v, In (k, v) d' -> top_3_customers S k = Ok v.
Proof.
  revert d. induction ids as [|k ids IH]; intros d Hnd Hfresh Hok.
  - exists []. rewrite app_nil_r. repeat split. intros k v [].
  - inversion Hnd as [|? ? Hk Hnd']; subst.
    destruct (Hok k (or_introl eq_refl)) as [v Hv].
    destruct (IH (d ++ [(k, v)]) Hnd') as [d' [Hloop [Hkeys Hvals]]].
    + intros k' Hk' Hin. rewrite map_app in Hin. apply in_app_or in Hin.
      destruct Hin as [Hin|[<-|[]]].
      * apply (Hfresh k' (or_intror Hk') Hin).
      * exact (Hk Hk').
    + intros k' Hk'. apply Hok. right. exact Hk'.
    + exists ((k, v) :: d'). split; [|split].
      * simpl. rewrite Hv. simpl bind.
        rewrite dict_set_fresh by (apply Hfresh; left; reflexivity).
        rewrite Hloop, <- app_assoc. reflexivity.
      * simpl. rewrite Hkeys. reflexivity.
      * intros k' v' [E|Hin]; [injection E as <- <-; exact Hv|].
        apply Hvals. exact Hin.
Qed.

(** The dictionary built by a whole run over pairwise distinct customer
    keys. *)
Lemma lookalike_dict_run (cs : list Customer) (ps : list Product)
  (ts : list Transaction) (S : DataFrame) :
  similarity_df cs ps ts = Ok S ->
  NoDup (map CustomerID cs) ->
  exists d,
    lookalike_dict cs ps ts = Ok d /\
    map fst d = first_20_customers cs /\
    forall k v, In (k, v) d -> lookalike cs ps ts k = Ok v.
Proof.
  intros HS Hnd.
  destruct (lookalike_loop_fresh S (first_20_customers cs) []) as [d [Hl [Hk Hv]]].
  - unfold first_20_customers.
    eapply subseq_NoDup; [apply subseq_firstn|exact Hnd].
  - intros k _ [].
  - intros k Hk. unfold first_20_customers in Hk.
    apply (subseq_In _ _ _ (subseq_firstn 20 _)) in Hk.
    apply in_map_iff in Hk. destruct Hk as [c [<- Hc]].
    eexists. rewrite <- (lookalike_via_matrix cs ps ts S _ HS).
    apply (lookalike_closed cs ps ts S c HS Hnd Hc).
  - exists d. split; [|split].
    + unfold lookalike_dict. rewrite HS. exact Hl.
    + exact Hk.
    + intros k v Hin. rewrite (lookalike_via_matrix cs ps ts S _ HS).
      apply Hv. exact Hin.
Qed.

(** X14. When the similarity matrix is built and customer keys are pairwise
    distinct, the whole run ends normally and [lookalike_dict] holds one
    entry for each of the first 20 customers of the collection (all of them
    when there are fewer), in the order of the collection; the entry of a
    key is the result of the query for that key. *)
Theorem lookalike_dict_covers_first_20
  (cs : list Customer) (ps : list Product) (ts : list Transaction)
  (S : DataFrame) :
  similarity_df cs ps ts = Ok S ->
  NoDup (map CustomerID cs) ->
  exists d,
    lookalike_dict cs ps ts = Ok d /\
    map fst d = firstn 20 (map CustomerID cs) /\
    length d = Nat.min 20 (length cs) /\
    forall k v, In (k, v) d -> lookalike cs ps ts k = Ok v.
Proof.
  intros HS Hnd.
  destruct (lookalike_dict_run cs ps ts S HS Hnd) as [d [Hd [Hk Hv]]].
  exists d. split; [exact Hd|]. split; [exact Hk|]. split; [|exact Hv].
  rewrite <- (length_map fst d), Hk. unfold first_20_customers.
  rewrite length_firstn, length_map. reflexivity.
Qed.

Lemma lookalike_dict_covers_first_20_witness :
  exists d,
    lookalike_dict example_customers example_products example_transactions
    = Ok d /\
    map fst d = ["A"; "B"; "C"] /\
    length d = 3%nat /\
    forall k v,
      In (k, v) d ->
      lookalike example_customers example_products example_transactions k = Ok v.
Proof.
  apply (lookalike_dict_covers_first_20
           example_customers example_products example_transactions _
           example_similarity_df example_customers_NoDup).
Defined.

(** ** Runs that are refused *)


